(** * Verification of [phone_agent/model/llama_client.py]

    A shallow embedding of [LlamaModelClient.request] (the streaming loop
    that echoes the model's thinking text and detects the action marker)
    and of [LlamaModelClient._parse_response] (the end-of-stream
    classifier), with the properties stated about them.

    Python [str] values are sequences of Unicode code points; they are
    modelled as lists of code points ([N]).  The [str] methods the client
    calls ([in], [split(sep, 1)], [endswith], [strip], [replace], slicing)
    are defined first, each with a lemma that characterises it
    independently of its recursion. *)

From Stdlib Require Import String Ascii.
From Stdlib Require Import List NArith Bool Arith Lia.
Import ListNotations.

(* ===================================================================== *)
(** ** Python strings *)
(* ===================================================================== *)

Module PyStr.

Definition char := N.
Definition str := list char.

(** A string literal of the source: its characters are all ASCII. *)
Definition lit (s : string) : str := map N_of_ascii (list_ascii_of_string s).

(** [s.startswith(p)] *)
Fixpoint startswith (s p : str) {struct p} : bool :=
  match p, s with
  | [], _ => true
  | _ :: _, [] => false
  | a :: p', b :: s' => N.eqb a b && startswith s' p'
  end.

(** [s == t] *)
Fixpoint str_eqb (s t : str) : bool :=
  match s, t with
  | [], [] => true
  | a :: s', b :: t' => N.eqb a b && str_eqb s' t'
  | _, _ => false
  end.

(** [s.endswith(p)]: the last [len(p)] characters of [s] are [p]. *)
Definition endswith (s p : str) : bool :=
  (length p <=? length s) && str_eqb (skipn (length s - length p) s) p.

(** [s.find(sub)]: the lowest index at which [sub] occurs, [None] for
    Python's [-1]. *)
Fixpoint find (s sub : str) : option nat :=
  if startswith s sub then Some 0
  else match s with
       | [] => None
       | _ :: s' => option_map S (find s' sub)
       end.

(** [sub in s] *)
Definition contains (s sub : str) : bool :=
  match find s sub with Some _ => true | None => false end.

(** [s.split(sep, 1)]: at most one split, at the first occurrence of
    [sep]; a list of one or two strings. *)
Definition split1 (s sep : str) : list str :=
  match find s sep with
  | Some i => [firstn i s; skipn (i + length sep) s]
  | None => [s]
  end.

(** [parts[i]]; the client only indexes positions that exist (see
    [split1_length]), so the default is never returned. *)
Definition item (parts : list str) (i : nat) : str := nth i parts [].

(** [c.isspace()] as [str.strip()] uses it: the Unicode white space
    characters (bidirectional classes WS, B, S, and category Zs). *)
Definition isspace (c : char) : bool :=
  ((9 <=? c) && (c <=? 13) || (28 <=? c) && (c <=? 32)
   || (c =? 133) || (c =? 160) || (c =? 5760)
   || (8192 <=? c) && (c <=? 8202)
   || (c =? 8232) || (c =? 8233) || (c =? 8239) || (c =? 8287)
   || (c =? 12288))%N.

Fixpoint lstrip (s : str) : str :=
  match s with
  | [] => []
  | c :: s' => if isspace c then lstrip s' else s
  end.

Definition rstrip (s : str) : str := rev (lstrip (rev s)).

(** [s.strip()] *)
Definition strip (s : str) : str := rstrip (lstrip s).

(** [s.replace(old, new)] for a non-empty [old]: scan from the left;
    where [old] starts, emit [new] and skip [len(old)] characters
    ([skip] counts the characters of the current match still to drop). *)
Fixpoint replace_scan (old new : str) (skip : nat) (s : str) : str :=
  match s with
  | [] => []
  | c :: s' =>
      match skip with
      | S k => replace_scan old new k s'
      | O => if startswith s old
             then new ++ replace_scan old new (length old - 1) s'
             else c :: replace_scan old new 0 s'
      end
  end.

(** [s.replace(old, new)]; an empty [old] matches before every character
    and at the end. *)
Definition replace (s old new : str) : str :=
  match old with
  | [] => new ++ flat_map (fun c => c :: new) s
  | _ :: _ => replace_scan old new 0 s
  end.

(** [s.removesuffix(p)], used only to state what stripping a trailing
    tag means. *)
Definition removesuffix (s p : str) : str :=
  if endswith s p then firstn (length s - length p) s else s.

End PyStr.
Import PyStr.

(* ===================================================================== *)
(** ** The client *)
(* ===================================================================== *)

(** [action_markers = ["finish(message=", "do(action="]] *)
Definition FINISH : str := lit "finish(message=".
Definition DO : str := lit "do(action=".
Definition action_markers : list str := [FINISH; DO].

Definition ANSWER : str := lit "<answer>".
Definition ANSWER_END : str := lit "</answer>".
Definition THINK : str := lit "<think>".
Definition THINK_END : str := lit "</think>".

(** [LlamaModelClient._parse_response] *)
Definition _parse_response (content : str) : str * str :=
  if contains content FINISH then
    let parts := split1 content FINISH in
    (strip (item parts 0), FINISH ++ item parts 1)
  else if contains content DO then
    let parts := split1 content DO in
    (strip (item parts 0), DO ++ item parts 1)
  else if contains content ANSWER then
    let parts := split1 content ANSWER in
    let thinking := strip (replace (replace (item parts 0) THINK []) THINK_END []) in
    let action := strip (replace (item parts 1) ANSWER_END []) in
    (thinking, action)
  else ([], content).

(** *** The event stream

    What [sseclient] yields, after [json.loads]: the sentinel, a body that
    is not JSON, or an object with a list of choices, each with an
    optional [delta] that has optional [content] and [text] strings. *)

Record Delta := { d_content : option str; d_text : option str }.

Record Choice := { delta : option Delta }.

Inductive event :=
| Done                              (* event.data == "[DONE]" *)
| Malformed                         (* json.loads(event.data) raises *)
| Data (choices : list Choice).     (* data.get("choices", []) *)

(** [x or y] on optional strings: [None] and [""] are falsy. *)
Definition or_else (x : option str) (y : str) : str :=
  match x with
  | Some (c :: s) => c :: s
  | _ => y
  end.

(** [delta.get("content") or delta.get("text") or ""] *)
Definition delta_content (d : Delta) : str :=
  or_else (d_content d) (or_else (d_text d) []).

(** [choices[0].get("delta", {})] and the content read from it; the empty
    string for the events the loop skips. *)
Definition event_content (e : event) : str :=
  match e with
  | Data (c :: _) =>
      match delta c with
      | Some d => delta_content d
      | None => []
      end
  | _ => []
  end.

(** The first loop over [action_markers] (lines 96-107): the first marker
    of the list that occurs in the buffer. *)
Fixpoint first_marker (markers : list str) (buffer : str) : option str :=
  match markers with
  | [] => None
  | marker :: rest =>
      if contains buffer marker then Some marker else first_marker rest buffer
  end.

(** The second loop (lines 113-120): some [marker[:i]] with
    [i in range(1, len(marker))] ends the buffer. *)
Definition is_potential_marker (buffer : str) : bool :=
  existsb
    (fun marker =>
       existsb (fun i => endswith buffer (firstn i marker))
               (seq 1 (length marker - 1)))
    action_markers.

Definition newline : str := [10%N].

Section Request.

(** The clock: [time.time()] returns floats, and the client only
    subtracts them.  [time_time n] is what the [n]-th call returns and
    [elapsed a b] is [a - b]. *)
Variable Time : Type.
Variable time_time : nat -> Time.
Variable elapsed : Time -> Time -> Time.

(** The report printed after the loop (lines 130-146); its labels come
    from [get_message], which is not part of this file. *)
Variable metrics_report : option Time -> option Time -> Time -> str.

(** The local variables of [request] that the loop updates, the text
    printed so far, and the number of clock reads so far. *)
Record state := mkState {
  raw_content : str;
  buffer : str;
  in_action_phase : bool;
  first_token_received : bool;
  time_to_first_token : option Time;
  time_to_thinking_end : option Time;
  stdout : str;
  clock : nat
}.

Definition start_time : Time := time_time 0.

(** The state when the loop is entered: [start_time] has been read. *)
Definition initial : state :=
  {| raw_content := []; buffer := []; in_action_phase := false;
     first_token_received := false;
     time_to_first_token := None; time_to_thinking_end := None;
     stdout := []; clock := 1 |}.

(** Lines 84-88. *)
Definition receive (s : state) (content : str) : state :=
  if first_token_received s then
    {| raw_content := raw_content s ++ content; buffer := buffer s;
       in_action_phase := in_action_phase s;
       first_token_received := true;
       time_to_first_token := time_to_first_token s;
       time_to_thinking_end := time_to_thinking_end s;
       stdout := stdout s; clock := clock s |}
  else
    {| raw_content := raw_content s ++ content; buffer := buffer s;
       in_action_phase := in_action_phase s;
       first_token_received := true;
       time_to_first_token := Some (elapsed (time_time (clock s)) start_time);
       time_to_thinking_end := time_to_thinking_end s;
       stdout := stdout s; clock := S (clock s) |}.

(** Lines 93-124, run when the action phase has not begun. *)
Definition scan (s : state) (content : str) : state :=
  let buf := buffer s ++ content in
  match first_marker action_markers buf with
  | Some marker =>
      let thinking_part := item (split1 buf marker) 0 in
      let out := stdout s ++ thinking_part ++ newline in
      match time_to_thinking_end s with
      | None =>
          {| raw_content := raw_content s; buffer := buf;
             in_action_phase := true;
             first_token_received := first_token_received s;
             time_to_first_token := time_to_first_token s;
             time_to_thinking_end :=
               Some (elapsed (time_time (clock s)) start_time);
             stdout := out; clock := S (clock s) |}
      | Some t =>
          {| raw_content := raw_content s; buffer := buf;
             in_action_phase := true;
             first_token_received := first_token_received s;
             time_to_first_token := time_to_first_token s;
             time_to_thinking_end := Some t;
             stdout := out; clock := clock s |}
      end
  | None =>
      if is_potential_marker buf then
        {| raw_content := raw_content s; buffer := buf;
           in_action_phase := in_action_phase s;
           first_token_received := first_token_received s;
           time_to_first_token := time_to_first_token s;
           time_to_thinking_end := time_to_thinking_end s;
           stdout := stdout s; clock := clock s |}
      else
        {| raw_content := raw_content s; buffer := [];
           in_action_phase := in_action_phase s;
           first_token_received := first_token_received s;
           time_to_first_token := time_to_first_token s;
           time_to_thinking_end := time_to_thinking_end s;
           stdout := stdout s ++ buf; clock := clock s |}
  end.

(** The loop body for an event with non-empty content (lines 84-124). *)
Definition on_content (s : state) (content : str) : state :=
  let s' := receive s content in
  if in_action_phase s' then s' else scan s' content.

(** The loop body for any event but the sentinel (lines 67-124). *)
Definition on_event (s : state) (e : event) : state :=
  match event_content e with
  | [] => s
  | c :: content => on_content s (c :: content)
  end.

(** [for event in client.events()], with the [break] on the sentinel. *)
Fixpoint events_loop (s : state) (events : list event) : state :=
  match events with
  | [] => s
  | Done :: _ => s
  | e :: rest => events_loop (on_event s e) rest
  end.

(** Modelled from the spec: [ModelResponse] is declared in [client.py];
    the Result of the specification has the thinking text, the action
    text, the raw content and the three timing values, the first two
    optional. *)
Record ModelResponse := mkResponse {
  thinking : str;
  action : str;
  response_raw_content : str;
  response_time_to_first_token : option Time;
  response_time_to_thinking_end : option Time;
  total_time : Time
}.

(** [LlamaModelClient.request], from the opened stream on: the response
    and everything printed. *)
Definition request (events : list event) : ModelResponse * str :=
  let s := events_loop initial events in
  let total := elapsed (time_time (clock s)) start_time in
  let '(th, ac) := _parse_response (raw_content s) in
  ({| thinking := th; action := ac;
      response_raw_content := raw_content s;
      response_time_to_first_token := time_to_first_token s;
      response_time_to_thinking_end := time_to_thinking_end s;
      total_time := total |},
   stdout s
   ++ metrics_report (time_to_first_token s) (time_to_thinking_end s) total).

End Request.

Arguments raw_content {Time} _.
Arguments buffer {Time} _.
Arguments in_action_phase {Time} _.
Arguments first_token_received {Time} _.
Arguments time_to_first_token {Time} _.
Arguments time_to_thinking_end {Time} _.
Arguments stdout {Time} _.
Arguments clock {Time} _.
Arguments initial {Time}.
Arguments thinking {Time} _.
Arguments action {Time} _.
Arguments response_raw_content {Time} _.
Arguments response_time_to_first_token {Time} _.
Arguments response_time_to_thinking_end {Time} _.
Arguments total_time {Time} _.
Arguments receive {Time} _ _ _ _.
Arguments scan {Time} _ _ _ _.
Arguments on_content {Time} _ _ _ _.
Arguments on_event {Time} _ _ _ _.
Arguments events_loop {Time} _ _ _ _.
Arguments request {Time} _ _ _ _.

(** The events of a stream that the loop consumes: those before the
    sentinel. *)
Fixpoint consumed (events : list event) : list event :=
  match events with
  | [] => []
  | Done :: _ => []
  | e :: rest => e :: consumed rest
  end.

(** A stream that delivers the given text chunks, one event each. *)
Definition chunk (content : str) : event :=
  Data [ {| delta := Some {| d_content := Some content; d_text := None |} |} ].

(** A concrete clock for the examples: the [n]-th read returns [n]. *)
Definition tick (n : nat) : nat := n.
Definition run (events : list event) : state nat :=
  events_loop tick Nat.sub initial events.

(* ===================================================================== *)
(** ** The constructor and the endpoint *)
(* ===================================================================== *)

(** [s.lstrip(chars)] and [s.rstrip(chars)]: the characters of [chars]
    are removed from one end. *)
Fixpoint lstrip_chars (s chars : str) : str :=
  match s with
  | [] => []
  | c :: s' => if existsb (N.eqb c) chars then lstrip_chars s' chars else s
  end.

Definition rstrip_chars (s chars : str) : str :=
  rev (lstrip_chars (rev s) chars).

(** The attributes that [__init__] sets from the configuration;
    [headers] is the dictionary, in insertion order. *)
Record LlamaModelClient := mkClient {
  base_url : str;
  headers : list (str * str)
}.

(** [LlamaModelClient.__init__], given [config.base_url] and
    [config.api_key] ([ModelConfig] is declared in [client.py]); a key
    that is [None] or empty is falsy. *)
Definition init (config_base_url : str) (config_api_key : option str)
  : LlamaModelClient :=
  {| base_url := rstrip_chars config_base_url (lit "/");
     headers :=
       (lit "Content-Type", lit "application/json")
       :: match config_api_key with
          | Some (c :: key) =>
              [(lit "Authorization", lit "Bearer " ++ c :: key)]
          | _ => []
          end |}.

(** [url = f"{self.base_url}/v1/chat/completions"] (line 44). *)
Definition url (self : LlamaModelClient) : str :=
  base_url self ++ lit "/v1/chat/completions".

(** The events that carry the given contents, skipping the empty ones:
    what a stream amounts to for the loop. *)
Definition nonempty (content : str) : bool :=
  match content with [] => false | _ :: _ => true end.

Definition contents (events : list event) : list str :=
  filter nonempty (map event_content (consumed events)).

(* ===================================================================== *)
(** ** Vocabulary of the statements *)
(* ===================================================================== *)

(** [sub] occurs in [s]. *)
Definition occurs (sub s : str) : Prop :=
  exists pre post, s = pre ++ sub ++ post.

(** [s] is [pre], then the first occurrence of [sub], then [post]. *)
Definition first_at (sub s pre post : str) : Prop :=
  s = pre ++ sub ++ post /\
  forall pre' post', s = pre' ++ sub ++ post' -> length pre <= length pre'.

(** [p] ends [s]. *)
Definition suffix (p s : str) : Prop := exists k, s = k ++ p.

(** [t] is [s] without its leading and trailing white space. *)
Definition trimmed (s t : str) : Prop :=
  exists l r,
    s = l ++ t ++ r
    /\ forallb isspace l = true /\ forallb isspace r = true
    /\ (forall c u, t = c :: u -> isspace c = false)
    /\ (forall u c, t = u ++ [c] -> isspace c = false).

(** [p] is a non-empty proper prefix of an action marker: the part of a
    marker that a chunk boundary can leave at the end of the buffer. *)
Definition marker_prefix (p : str) : Prop :=
  exists marker i,
    In marker action_markers /\ 0 < i < length marker /\ p = firstn i marker.

(** What holds of the live output in each phase.  Thinking phase: the
    printed text and the pending buffer make up the raw content, which
    holds no marker, and the printed text does not end inside a marker.
    Action phase: the printed text is the raw content before the first
    occurrence of a marker, and a newline. *)
Definition stream_inv {Time} (s : state Time) : Prop :=
  if in_action_phase s then
    exists marker pre post,
      In marker action_markers
      /\ first_at marker (raw_content s) pre post
      /\ stdout s = pre ++ newline
  else
    raw_content s = stdout s ++ buffer s
    /\ (forall marker, In marker action_markers ->
                       ~ occurs marker (raw_content s))
    /\ (forall p, marker_prefix p -> ~ suffix p (stdout s)).

(** What holds of the timing variables: each is read from the clock at
    most once, the first-token time at the second clock read and the
    thinking-end time at the third. *)
Definition timing_inv {Time} (time_time : nat -> Time)
    (elapsed : Time -> Time -> Time) (s : state Time) : Prop :=
  (if first_token_received s then
     time_to_first_token s = Some (elapsed (time_time 1) (time_time 0))
     /\ raw_content s <> []
   else
     time_to_first_token s = None /\ raw_content s = []
     /\ in_action_phase s = false)
  /\ (if in_action_phase s then
        time_to_thinking_end s = Some (elapsed (time_time 2) (time_time 0))
        /\ clock s = 3
      else
        time_to_thinking_end s = None
        /\ clock s = if first_token_received s then 2 else 1).

(** The text after a trailing [</answer>] tag is stripped, then trimmed:
    the reading of the specification's wording for the [<answer>] branch,
    to be compared with what [_parse_response] computes. *)
Definition trailing_tag_stripped (after : str) : str :=
  strip (removesuffix after ANSWER_END).

(* ===================================================================== *)
(** ** Examples *)
(* ===================================================================== *)

Example parse_finish :
  _parse_response (lit "I think... finish(message='done')")
  = (lit "I think...", lit "finish(message='done')").
Proof. reflexivity. Qed.

Example parse_answer :
  _parse_response (lit "<answer>42</answer>") = ([], lit "42").
Proof. reflexivity. Qed.

Example split_marker_withheld :
  stdout (run [chunk (lit "hello do(acti")]) = []
  /\ stdout (run [chunk (lit "hello do(acti"); chunk (lit "on=run)")])
     = lit "hello " ++ newline
  /\ raw_content (run [chunk (lit "hello do(acti"); chunk (lit "on=run)")])
     = lit "hello do(action=run)".
Proof. repeat split; reflexivity. Qed.

(* ===================================================================== *)
(** ** Facts about the string operations *)
(* ===================================================================== *)

Lemma startswith_iff s p : startswith s p = true <-> exists t, s = p ++ t.
Proof.
  revert s; induction p as [|a p IH]; intros s; simpl.
  - split; [exists s; reflexivity | reflexivity].
  - destruct s as [|b s].
    + split; [discriminate | intros [t Ht]; discriminate].
    + rewrite andb_true_iff, N.eqb_eq, IH. split.
      * intros [-> [t ->]]. exists t. reflexivity.
      * intros [t Ht]. injection Ht as -> ->. split; [reflexivity | eexists; reflexivity].
Qed.

Lemma startswith_app p t : startswith (p ++ t) p = true.
Proof. apply startswith_iff. exists t. reflexivity. Qed.

Lemma str_eqb_iff s t : str_eqb s t = true <-> s = t.
Proof.
  revert t; induction s as [|a s IH]; intros [|b t]; simpl;
    try (split; [discriminate | discriminate]); try tauto.
  rewrite andb_true_iff, N.eqb_eq, IH. split.
  - intros [-> ->]; reflexivity.
  - intros H; injection H as -> ->; auto.
Qed.

Lemma endswith_iff s p : endswith s p = true <-> suffix p s.
Proof.
  unfold endswith, suffix. rewrite andb_true_iff, Nat.leb_le, str_eqb_iff. split.
  - intros [Hle Hp]. exists (firstn (length s - length p) s).
    pose proof (firstn_skipn (length s - length p) s) as E.
    rewrite Hp in E. symmetry. exact E.
  - intros [k ->]. rewrite length_app. split; [lia|].
    replace (length k + length p - length p) with (length k + 0) by lia.
    rewrite skipn_app, Nat.add_0_r, skipn_all.
    replace (length k - length k) with 0 by lia. reflexivity.
Qed.

Lemma find_split s sub i :
  find s sub = Some i ->
  s = firstn i s ++ sub ++ skipn (i + length sub) s.
Proof.
  revert i; induction s as [|c s IH]; intros i; simpl.
  - destruct (startswith [] sub) eqn:E; [|discriminate].
    intros [= <-]. apply startswith_iff in E as [t Ht].
    destruct sub; [|discriminate]. reflexivity.
  - destruct (startswith (c :: s) sub) eqn:E.
    + intros [= <-]. apply startswith_iff in E as [t Ht].
      simpl. rewrite Ht at 1. f_equal. rewrite Ht.
      rewrite skipn_app, skipn_all, Nat.sub_diag. reflexivity.
    + destruct (find s sub) as [j|] eqn:F; [|discriminate].
      intros [= <-]. simpl. f_equal. apply IH. reflexivity.
Qed.

Lemma find_le s sub pre post :
  s = pre ++ sub ++ post -> exists i, find s sub = Some i /\ i <= length pre.
Proof.
  revert s; induction pre as [|c pre IH]; intros s ->.
  - exists 0. split; [|simpl; lia].
    simpl app. destruct (sub ++ post) eqn:E; simpl; rewrite <- ?E.
    + destruct sub; [reflexivity | discriminate].
    + rewrite startswith_app. reflexivity.
  - simpl. destruct (startswith (c :: pre ++ sub ++ post) sub).
    + exists 0. split; [reflexivity | lia].
    + destruct (IH _ eq_refl) as [i [-> Hi]]. exists (S i). split; [reflexivity | lia].
Qed.

Lemma contains_iff s sub : contains s sub = true <-> occurs sub s.
Proof.
  unfold contains, occurs. split.
  - destruct (find s sub) as [i|] eqn:F; [|discriminate].
    intros _. eexists _, _. apply (find_split _ _ _ F).
  - intros [pre [post H]]. destruct (find_le _ _ _ _ H) as [i [-> _]]. reflexivity.
Qed.

Lemma contains_false_iff s sub : contains s sub = false <-> ~ occurs sub s.
Proof.
  rewrite <- contains_iff. destruct (contains s sub); split; intros; congruence.
Qed.

Lemma find_first_at s sub i :
  find s sub = Some i ->
  first_at sub s (firstn i s) (skipn (i + length sub) s).
Proof.
  intros F. split; [apply (find_split _ _ _ F)|].
  intros pre' post' H. destruct (find_le _ _ _ _ H) as [j [Fj Hj]].
  rewrite F in Fj. injection Fj as <-.
  rewrite length_firstn. lia.
Qed.

Lemma first_at_unique sub s pre post pre' post' :
  first_at sub s pre post -> first_at sub s pre' post' ->
  pre = pre' /\ post = post'.
Proof.
  intros [H1 M1] [H2 M2].
  assert (L : length pre = length pre').
  { apply Nat.le_antisymm; [apply (M1 _ _ H2) | apply (M2 _ _ H1)]. }
  rewrite H1 in H2.
  assert (E : pre = pre').
  { apply (f_equal (firstn (length pre))) in H2.
    rewrite firstn_app, firstn_all, Nat.sub_diag in H2. simpl in H2.
    rewrite L, firstn_app, firstn_all, Nat.sub_diag, app_nil_r in H2. simpl in H2.
    rewrite app_nil_r in H2. exact H2. }
  subst pre'. split; [reflexivity|].
  apply app_inv_head in H2. apply app_inv_head in H2. exact H2.
Qed.

Lemma occurs_first_at sub s :
  occurs sub s -> exists pre post, first_at sub s pre post.
Proof.
  intros [pre [post H]]. destruct (find_le _ _ _ _ H) as [i [F _]].
  eexists _, _. apply (find_first_at _ _ _ F).
Qed.

Lemma split1_first_at sub s pre post :
  first_at sub s pre post -> split1 s sub = [pre; post].
Proof.
  intros H. destruct (find_le _ _ _ _ (proj1 H)) as [i [F _]].
  unfold split1. rewrite F.
  destruct (first_at_unique _ _ _ _ _ _ (find_first_at _ _ _ F) H) as [E1 E2].
  rewrite E1, E2. reflexivity.
Qed.

Lemma split1_length s sub :
  length (split1 s sub) = if contains s sub then 2 else 1.
Proof. unfold split1, contains. destruct (find s sub); reflexivity. Qed.

Lemma firstn_length_app (a b : str) : firstn (length a) (a ++ b) = a.
Proof.
  rewrite firstn_app, firstn_all, Nat.sub_diag. simpl. apply app_nil_r.
Qed.

Lemma skipn_length_app (a b : str) : skipn (length a) (a ++ b) = b.
Proof.
  rewrite skipn_app, skipn_all, Nat.sub_diag. reflexivity.
Qed.

(** An occurrence of [m] in [a ++ b] lies in [b], lies in [a], or
    straddles the boundary. *)
Lemma occurs_app_cases (a b m pre post : str) :
  a ++ b = pre ++ m ++ post ->
  (exists l, pre = a ++ l /\ b = l ++ m ++ post)
  \/ (exists l, a = pre ++ m ++ l /\ post = l ++ b)
  \/ (exists i, 0 < i < length m
                /\ a = pre ++ firstn i m /\ b = skipn i m ++ post).
Proof.
  intros H. apply app_eq_app in H as [l [[Ha Hb] | [Ha Hb]]].
  2:{ left. exists l. auto. }
  apply app_eq_app in Hb as [l' [[Hm Hp] | [Hm Hp]]].
  - destruct l as [|c l].
    + left. exists []. rewrite app_nil_r in *. simpl in Hm.
      split; [auto | rewrite Hp, Hm; reflexivity].
    + destruct l' as [|c' l'].
      * right. left. exists []. rewrite app_nil_r in Hm. simpl in Hp.
        rewrite app_nil_r, Hm. auto.
      * right. right. exists (length (c :: l)).
        rewrite Hm, firstn_length_app, skipn_length_app, length_app.
        simpl. repeat split; auto; lia.
  - right. left. exists l'. rewrite Ha, Hm. auto.
Qed.

(** Appending text does not move the first occurrence. *)
Lemma first_at_app (m s pre post c : str) :
  first_at m s pre post -> first_at m (s ++ c) pre (post ++ c).
Proof.
  intros [H M]. split.
  - rewrite H, <- !app_assoc. reflexivity.
  - intros pre' post' H'.
    destruct (occurs_app_cases _ _ _ _ _ H') as [[l [Hp Hc]] | [[l [Hs Hp]] | [i [Hi [Hs Hc]]]]].
    + subst pre'. rewrite H, !length_app. lia.
    + apply (M _ _ Hs).
    + destruct (Nat.le_gt_cases (length pre) (length pre')) as [L|L]; [exact L|].
      exfalso. apply (f_equal (@length _)) in Hs, H.
      rewrite !length_app in *. rewrite length_firstn in Hs. lia.
Qed.

Lemma lstrip_spec s :
  exists l, s = l ++ lstrip s /\ forallb isspace l = true
            /\ (forall c u, lstrip s = c :: u -> isspace c = false).
Proof.
  induction s as [|a s [l [E [W F]]]]; simpl.
  - exists []. repeat split; intros; discriminate.
  - destruct (isspace a) eqn:Ea.
    + exists (a :: l). simpl. rewrite Ea, W. repeat split; auto. f_equal. exact E.
    + exists []. repeat split. intros c u [= <- _]. exact Ea.
Qed.

Lemma rstrip_spec s :
  exists r, s = rstrip s ++ r /\ forallb isspace r = true
            /\ (forall u c, rstrip s = u ++ [c] -> isspace c = false).
Proof.
  unfold rstrip. destruct (lstrip_spec (rev s)) as [l [E [W F]]].
  exists (rev l). repeat split.
  - rewrite <- rev_app_distr, <- E, rev_involutive. reflexivity.
  - apply forallb_forall. intros x Hx. apply in_rev in Hx.
    rewrite forallb_forall in W. auto.
  - intros u c H. apply (f_equal (@rev _)) in H.
    rewrite rev_involutive, rev_app_distr in H. simpl in H. eauto.
Qed.

(** [strip] removes exactly the leading and trailing white space. *)
Lemma strip_trimmed s : trimmed s (strip s).
Proof.
  unfold strip, trimmed.
  destruct (lstrip_spec s) as [l [E [W F]]].
  destruct (rstrip_spec (lstrip s)) as [r [E' [W' F']]].
  exists l, r. repeat split; auto.
  - rewrite <- E'. exact E.
  - intros c u H. rewrite H in E'. simpl in E'. eauto.
Qed.

Lemma replace_scan_skip old new (a t : str) :
  replace_scan old new (length a) (a ++ t) = replace_scan old new 0 t.
Proof.
  induction a as [|c a IH]; simpl; [|exact IH].
  destruct t; reflexivity.
Qed.

(** The three equations of [replace] for a non-empty [old]. *)
Lemma replace_nil old new : old <> [] -> replace [] old new = [].
Proof. destruct old; [congruence | reflexivity]. Qed.

Lemma replace_match old new t :
  old <> [] -> replace (old ++ t) old new = new ++ replace t old new.
Proof.
  destruct old as [|c o]; [congruence|]. intros _.
  unfold replace. change ((c :: o) ++ t) with (c :: o ++ t).
  cbn [replace_scan]. change (c :: o ++ t) with ((c :: o) ++ t).
  rewrite startswith_app. f_equal.
  replace (length (c :: o) - 1) with (length o) by (simpl; lia).
  apply replace_scan_skip.
Qed.

Lemma replace_nomatch old new c t :
  old <> [] -> startswith (c :: t) old = false ->
  replace (c :: t) old new = c :: replace t old new.
Proof.
  destruct old as [|c' o]; [congruence|]. intros _ H.
  unfold replace. cbn [replace_scan]. rewrite H. reflexivity.
Qed.

Lemma replace_absent s old new :
  old <> [] -> ~ occurs old s -> replace s old new = s.
Proof.
  intros Hold. induction s as [|c s IH]; intros H.
  - apply replace_nil, Hold.
  - destruct (startswith (c :: s) old) eqn:E.
    + exfalso. apply H. apply startswith_iff in E as [t Ht].
      exists [], t. exact Ht.
    + rewrite replace_nomatch by assumption. f_equal. apply IH.
      intros [pre [post Hp]]. apply H. exists (c :: pre), post.
      simpl. f_equal. exact Hp.
Qed.

(* ===================================================================== *)
(** ** [_parse_response]: the four branches *)
(* ===================================================================== *)

Lemma contains_first_at sub s pre post :
  first_at sub s pre post -> contains s sub = true.
Proof. intros [H _]. apply contains_iff. exists pre, post. exact H. Qed.

Lemma parse_finish_at content pre post :
  first_at FINISH content pre post ->
  _parse_response content = (strip pre, FINISH ++ post).
Proof.
  intros H. unfold _parse_response.
  rewrite (contains_first_at _ _ _ _ H), (split1_first_at _ _ _ _ H). reflexivity.
Qed.

Lemma parse_do_at content pre post :
  ~ occurs FINISH content ->
  first_at DO content pre post ->
  _parse_response content = (strip pre, DO ++ post).
Proof.
  intros NF H. unfold _parse_response.
  apply contains_false_iff in NF. rewrite NF.
  rewrite (contains_first_at _ _ _ _ H), (split1_first_at _ _ _ _ H). reflexivity.
Qed.

Lemma parse_answer_at content pre post :
  ~ occurs FINISH content -> ~ occurs DO content ->
  first_at ANSWER content pre post ->
  _parse_response content
  = (strip (replace (replace pre THINK []) THINK_END []),
     strip (replace post ANSWER_END [])).
Proof.
  intros NF ND H. unfold _parse_response.
  apply contains_false_iff in NF, ND. rewrite NF, ND.
  rewrite (contains_first_at _ _ _ _ H), (split1_first_at _ _ _ _ H). reflexivity.
Qed.

Lemma parse_plain content :
  ~ occurs FINISH content -> ~ occurs DO content -> ~ occurs ANSWER content ->
  _parse_response content = ([], content).
Proof.
  intros NF ND NA. unfold _parse_response.
  apply contains_false_iff in NF, ND, NA. rewrite NF, ND, NA. reflexivity.
Qed.

(** C2. For every content in which ["finish(message="] occurs, with [pre]
    the text before its first occurrence and [T] the text after it,
    [_parse_response] returns the action ["finish(message=" + T] with [T]
    unmodified, and the thinking text [pre] without its leading and
    trailing white space. *)
Theorem C2_finish_branch content pre T :
  first_at FINISH content pre T ->
  _parse_response content = (strip pre, FINISH ++ T)
  /\ trimmed pre (fst (_parse_response content)).
Proof.
  intros H. rewrite (parse_finish_at _ _ _ H). split; [reflexivity|].
  apply strip_trimmed.
Qed.

(** Settles [first_at] on literal strings: [i] is the index that [find]
    computes. *)
Ltac first_at_by_find i :=
  match goal with
  | |- first_at ?m ?s _ _ => exact (find_first_at s m i eq_refl)
  end.

Lemma C2_finish_branch_witness :
  first_at FINISH (lit "I think... finish(message='done')")
           (lit "I think... ") (lit "'done')")
  /\ _parse_response (lit "I think... finish(message='done')")
     = (lit "I think...", lit "finish(message='done')").
Proof.
  assert (H : first_at FINISH (lit "I think... finish(message='done')")
                       (lit "I think... ") (lit "'done')"))
    by (first_at_by_find 11).
  split; [exact H | exact (proj1 (C2_finish_branch _ _ _ H))].
Defined.

Lemma first_marker_finish buf :
  occurs FINISH buf -> first_marker action_markers buf = Some FINISH.
Proof. intros H. apply contains_iff in H. simpl. rewrite H. reflexivity. Qed.

Lemma first_marker_do buf :
  ~ occurs FINISH buf -> occurs DO buf ->
  first_marker action_markers buf = Some DO.
Proof.
  intros NF H. apply contains_false_iff in NF. apply contains_iff in H.
  simpl. rewrite NF, H. reflexivity.
Qed.

Lemma first_marker_none buf :
  first_marker action_markers buf = None <->
  forall m, In m action_markers -> ~ occurs m buf.
Proof.
  simpl. split.
  - destruct (contains buf FINISH) eqn:F; [discriminate|].
    destruct (contains buf DO) eqn:D; [discriminate|].
    intros _ m [<- | [<- | []]]; apply contains_false_iff; assumption.
  - intros H.
    rewrite (proj2 (contains_false_iff buf FINISH)) by (apply H; simpl; auto).
    rewrite (proj2 (contains_false_iff buf DO)) by (apply H; simpl; auto).
    reflexivity.
Qed.

Lemma first_marker_some buf m :
  first_marker action_markers buf = Some m ->
  In m action_markers /\ occurs m buf.
Proof.
  simpl. destruct (contains buf FINISH) eqn:F.
  - intros [= <-]. split; [auto | apply contains_iff, F].
  - destruct (contains buf DO) eqn:D; [|discriminate].
    intros [= <-]. split; [auto | apply contains_iff, D].
Qed.

(** C3. The markers are tried in the order ["finish(message="],
    ["do(action="], ["<answer>"]: content with ["do(action="] and without
    ["finish(message="] is split at the first ["do(action="] (whatever
    else it holds); content with ["finish(message="] is split at its first
    occurrence even when ["do(action="] occurs before it; the streaming
    loop tries the two action markers in the same order. *)
Theorem C3_priority_order :
  (forall content pre post,
      ~ occurs FINISH content -> first_at DO content pre post ->
      _parse_response content = (strip pre, DO ++ post))
  /\ (forall content pre post,
      first_at FINISH content pre post -> occurs DO pre ->
      _parse_response content = (strip pre, FINISH ++ post))
  /\ (forall buf, occurs FINISH buf ->
                  first_marker action_markers buf = Some FINISH)
  /\ (forall buf, ~ occurs FINISH buf -> occurs DO buf ->
                  first_marker action_markers buf = Some DO).
Proof.
  repeat split.
  - intros content pre post NF H. apply parse_do_at; assumption.
  - intros content pre post H _. apply parse_finish_at; assumption.
  - apply first_marker_finish.
  - apply first_marker_do.
Qed.

Lemma C3_priority_order_witness :
  _parse_response (lit "x<answer>do(action=Tap)") = (lit "x<answer>", lit "do(action=Tap)")
  /\ _parse_response (lit "do(action=a) finish(message=b)")
     = (lit "do(action=a)", lit "finish(message=b)")
  /\ first_marker action_markers (lit "do(action=a) finish(message=b)")
     = Some FINISH.
Proof.
  destruct C3_priority_order as [Hdo [Hfinish [Hscan _]]].
  split; [|split].
  - apply (Hdo (lit "x<answer>do(action=Tap)") (lit "x<answer>") (lit "Tap)")).
    + apply contains_false_iff. reflexivity.
    + first_at_by_find 9.
  - apply (Hfinish (lit "do(action=a) finish(message=b)") (lit "do(action=a) ") (lit "b)")).
    + first_at_by_find 13.
    + apply contains_iff. reflexivity.
  - apply Hscan. apply contains_iff. reflexivity.
Defined.

(** A closing tag after text that holds none is the only one, and
    [replace] removes it: ["</answer>"] does not overlap itself. *)
Lemma replace_trailing_tag X :
  ~ occurs ANSWER_END X -> replace (X ++ ANSWER_END) ANSWER_END [] = X.
Proof.
  induction X as [|c X IH]; intros H; [reflexivity|].
  assert (N : startswith ((c :: X) ++ ANSWER_END) ANSWER_END = false).
  { destruct (startswith ((c :: X) ++ ANSWER_END) ANSWER_END) eqn:E;
      [exfalso | reflexivity].
    apply startswith_iff in E as [t E].
    destruct (occurs_app_cases (c :: X) ANSWER_END ANSWER_END [] t E)
      as [[l [Hp _]] | [[l [Ha _]] | [i [Hi [_ Hb]]]]].
    - discriminate.
    - apply H. exists [], l. exact Ha.
    - do 9 (destruct i as [|i]; [try lia; discriminate|]).
      simpl in Hi. lia. }
  change ((c :: X) ++ ANSWER_END) with (c :: X ++ ANSWER_END) in *.
  rewrite replace_nomatch by (assumption || discriminate).
  f_equal. apply IH. intros [pre [post E]]. apply H.
  exists (c :: pre), post. simpl. f_equal. exact E.
Qed.

(** C4, as the code has it. For every content in which ["<answer>"]
    occurs and neither action marker does, with [pre] the text before the
    first ["<answer>"] and [post] the text after it: the thinking text is
    [pre] with every ["<think>"] removed, then every ["</think>"], then
    trimmed; the action is [post] with every occurrence of ["</answer>"]
    removed (not only a trailing one), then trimmed.  When [post] is
    [X] followed by its only ["</answer>"], the action is [X] trimmed;
    when [pre] holds no thinking tag, the thinking text is [pre]
    trimmed. *)
Theorem C4_answer_branch content pre post :
  ~ occurs FINISH content -> ~ occurs DO content ->
  first_at ANSWER content pre post ->
  _parse_response content
  = (strip (replace (replace pre THINK []) THINK_END []),
     strip (replace post ANSWER_END []))
  /\ (forall X, post = X ++ ANSWER_END -> ~ occurs ANSWER_END X ->
                snd (_parse_response content) = strip X)
  /\ (~ occurs THINK pre -> ~ occurs THINK_END pre ->
      fst (_parse_response content) = strip pre).
Proof.
  intros NF ND F. rewrite (parse_answer_at _ _ _ NF ND F). cbn [fst snd].
  split; [reflexivity | split].
  - intros X -> HX. rewrite replace_trailing_tag by assumption. reflexivity.
  - intros H1 H2.
    rewrite (replace_absent pre THINK []) by (assumption || discriminate).
    rewrite (replace_absent pre THINK_END []) by (assumption || discriminate).
    reflexivity.
Qed.

Lemma C4_answer_branch_witness :
  _parse_response (lit "<think>why</think> <answer> 42 </answer>")
  = (lit "why", lit "42").
Proof.
  apply (C4_answer_branch (lit "<think>why</think> <answer> 42 </answer>")
                          (lit "<think>why</think> ") (lit " 42 </answer>")).
  - apply contains_false_iff. reflexivity.
  - apply contains_false_iff. reflexivity.
  - first_at_by_find 19.
Defined.

(** C4 as stated fails: in ["<answer>a</answer>b"] the closing tag is not
    trailing, so stripping a trailing tag leaves ["a</answer>b"], while
    [_parse_response] returns the action ["ab"]. *)
Lemma C4_counterexample :
  ~ occurs FINISH (lit "<answer>a</answer>b")
  /\ ~ occurs DO (lit "<answer>a</answer>b")
  /\ first_at ANSWER (lit "<answer>a</answer>b") [] (lit "a</answer>b")
  /\ trailing_tag_stripped (lit "a</answer>b") = lit "a</answer>b"
  /\ snd (_parse_response (lit "<answer>a</answer>b")) = lit "ab"
  /\ snd (_parse_response (lit "<answer>a</answer>b"))
     <> trailing_tag_stripped (lit "a</answer>b").
Proof.
  repeat split; try (apply contains_false_iff; reflexivity).
  - intros pre' post' _. simpl; lia.
  - discriminate.
Qed.

(** C9. Content with none of ["finish(message="], ["do(action="] and
    ["<answer>"] is returned whole as the action, with empty thinking
    text; so is the empty content. *)
Theorem C9_no_marker content :
  ~ occurs FINISH content -> ~ occurs DO content -> ~ occurs ANSWER content ->
  _parse_response content = ([], content)
  /\ _parse_response [] = ([], []).
Proof.
  intros NF ND NA. split; [apply parse_plain; assumption | reflexivity].
Qed.

Lemma C9_no_marker_witness :
  _parse_response (lit " just text ") = ([], lit " just text ").
Proof.
  apply (C9_no_marker (lit " just text "));
    apply contains_false_iff; reflexivity.
Defined.

(** C10. For content with an action marker, the returned pair rebuilds
    the content: the action is a suffix of the content that begins with
    the matched marker, and the thinking text is the rest of the content
    (the prefix before the action) trimmed. *)
Theorem C10_reconstruction content :
  occurs FINISH content \/ occurs DO content ->
  exists p m rest,
    In m action_markers
    /\ content = p ++ snd (_parse_response content)
    /\ fst (_parse_response content) = strip p
    /\ trimmed p (fst (_parse_response content))
    /\ snd (_parse_response content) = m ++ rest.
Proof.
  intros H. destruct (contains content FINISH) eqn:F.
  - apply contains_iff, occurs_first_at in F as [pre [post F]].
    exists pre, FINISH, post. rewrite (parse_finish_at _ _ _ F). simpl.
    repeat split; auto. + apply F. + apply strip_trimmed.
  - apply contains_false_iff in F. destruct H as [H | H]; [contradiction|].
    apply occurs_first_at in H as [pre [post D]].
    exists pre, DO, post. rewrite (parse_do_at _ _ _ F D). simpl.
    repeat split; auto. + apply D. + apply strip_trimmed.
Qed.

Lemma C10_reconstruction_witness :
  exists p m rest,
    In m action_markers
    /\ lit " tap it do(action=Tap)"
       = p ++ snd (_parse_response (lit " tap it do(action=Tap)"))
    /\ fst (_parse_response (lit " tap it do(action=Tap)")) = strip p
    /\ trimmed p (fst (_parse_response (lit " tap it do(action=Tap)")))
    /\ snd (_parse_response (lit " tap it do(action=Tap)")) = m ++ rest.
Proof.
  apply (C10_reconstruction (lit " tap it do(action=Tap)")).
  right. apply contains_iff. reflexivity.
Defined.

(* ===================================================================== *)
(** ** The streaming loop *)
(* ===================================================================== *)

Lemma is_potential_marker_iff buf :
  is_potential_marker buf = true <->
  exists p, marker_prefix p /\ suffix p buf.
Proof.
  unfold is_potential_marker, marker_prefix. rewrite existsb_exists. split.
  - intros [m [Hm H]]. apply existsb_exists in H as [i [Hi H]].
    apply in_seq in Hi. apply endswith_iff in H.
    exists (firstn i m). split; [|exact H].
    exists m, i. repeat split; auto; lia.
  - intros [p [[m [i [Hm [Hi ->]]]] H]]. exists m. split; [exact Hm|].
    apply existsb_exists. exists i. split.
    + apply in_seq. lia.
    + apply endswith_iff, H.
Qed.

Lemma marker_prefix_prefix l t p :
  marker_prefix p -> p = l ++ t -> l <> [] -> marker_prefix l.
Proof.
  intros [m [i [Hm [Hi Hp]]]] E Hl. exists m, (length l).
  assert (L : length l <= i).
  { apply (f_equal (@length _)) in E. rewrite Hp, length_app, length_firstn in E. lia. }
  repeat split; auto.
  - destruct l; [congruence | simpl; lia].
  - lia.
  - assert (E2 : firstn (length l) p = l)
      by (rewrite E; apply firstn_length_app).
    rewrite Hp, firstn_firstn, Nat.min_l in E2 by lia.
    symmetry. exact E2.
Qed.

Lemma occurs_app_l m a b : occurs m a -> occurs m (a ++ b).
Proof.
  intros [pre [post ->]]. exists pre, (post ++ b).
  rewrite <- !app_assoc. reflexivity.
Qed.

(** Text that holds no marker and does not end inside one, followed by
    text that holds no marker, holds no marker. *)
Lemma no_marker_extend out buf :
  (forall m, In m action_markers -> ~ occurs m out) ->
  (forall p, marker_prefix p -> ~ suffix p out) ->
  (forall m, In m action_markers -> ~ occurs m buf) ->
  forall m, In m action_markers -> ~ occurs m (out ++ buf).
Proof.
  intros Hout Htail Hbuf m Hm [pre [post E]].
  destruct (occurs_app_cases _ _ _ _ _ E)
    as [[l [_ Hb]] | [[l [Ha _]] | [i [Hi [Ha _]]]]].
  - apply (Hbuf m Hm). exists l, post. exact Hb.
  - apply (Hout m Hm). exists pre, l. exact Ha.
  - apply (Htail (firstn i m)).
    + exists m, i. auto.
    + exists pre. exact Ha.
Qed.

(** After such text, the first occurrence of a marker in what follows is
    its first occurrence in the whole. *)
Lemma first_at_extend out buf m pre post :
  (forall m, In m action_markers -> ~ occurs m out) ->
  (forall p, marker_prefix p -> ~ suffix p out) ->
  In m action_markers ->
  first_at m buf pre post ->
  first_at m (out ++ buf) (out ++ pre) post.
Proof.
  intros Hout Htail Hm [E M]. split.
  - rewrite E, <- app_assoc. reflexivity.
  - intros pre' post' E'.
    destruct (occurs_app_cases _ _ _ _ _ E')
      as [[l [Hp Hb]] | [[l [Ha _]] | [i [Hi [Ha _]]]]].
    + rewrite Hp, !length_app. specialize (M _ _ Hb). lia.
    + exfalso. apply (Hout m Hm). exists pre', l. exact Ha.
    + exfalso. apply (Htail (firstn i m)).
      * exists m, i. auto.
      * exists pre'. exact Ha.
Qed.

(** Flushing a buffer that does not end inside a marker keeps the printed
    text from ending inside one. *)
Lemma flush_keeps_tail out buf :
  (forall p, marker_prefix p -> ~ suffix p out) ->
  is_potential_marker buf = false ->
  forall p, marker_prefix p -> ~ suffix p (out ++ buf).
Proof.
  intros Htail Hpot p Hp [k E].
  assert (Hbuf : ~ suffix p buf).
  { intros H. rewrite (proj2 (is_potential_marker_iff buf)) in Hpot;
      [discriminate | exists p; auto]. }
  apply app_eq_app in E as [l [[Ho Hl] | [Hk Hb]]].
  - destruct l as [|c l].
    + apply Hbuf. exists []. simpl in Hl. rewrite Hl. reflexivity.
    + apply (Htail (c :: l)).
      * apply (marker_prefix_prefix (c :: l) buf p Hp Hl). discriminate.
      * exists k. exact Ho.
  - apply Hbuf. exists l. exact Hb.
Qed.

Section Loop.

Variable Time : Type.
Variable time_time : nat -> Time.
Variable elapsed : Time -> Time -> Time.

Implicit Types (s : state Time) (e : event) (es events : list event).

(** *** The loop and its prefixes *)

Lemma on_event_content s e :
  on_event time_time elapsed s e
  = match event_content e with
    | [] => s
    | _ :: _ => on_content time_time elapsed s (event_content e)
    end.
Proof. unfold on_event. destruct (event_content e); reflexivity. Qed.

Lemma events_loop_consumed s es :
  events_loop time_time elapsed s (consumed es)
  = events_loop time_time elapsed s es.
Proof.
  revert s; induction es as [|e es IH]; intros s; [reflexivity|].
  destruct e; simpl; auto.
Qed.

Lemma consumed_no_done es : ~ In Done (consumed es).
Proof.
  induction es as [|e es IH]; simpl; [tauto|].
  destruct e; simpl; intuition discriminate.
Qed.

Lemma events_loop_app s es1 es2 :
  ~ In Done es1 ->
  events_loop time_time elapsed s (es1 ++ es2)
  = events_loop time_time elapsed (events_loop time_time elapsed s es1) es2.
Proof.
  revert s; induction es1 as [|e es1 IH]; intros s H; [reflexivity|].
  simpl in H. destruct e; simpl; try (apply IH; tauto).
  exfalso; auto.
Qed.

Lemma events_loop_one s e :
  events_loop time_time elapsed s [e] = on_event time_time elapsed s e.
Proof. destruct e; reflexivity. Qed.

(** The state after [es1 ++ [e]] is one loop iteration after the state
    after [es1], for every prefix of the consumed events. *)
Lemma events_loop_snoc s events es1 e es2 :
  consumed events = es1 ++ e :: es2 ->
  events_loop time_time elapsed s (es1 ++ [e])
  = on_event time_time elapsed (events_loop time_time elapsed s es1) e.
Proof.
  intros H. rewrite events_loop_app, events_loop_one; [reflexivity|].
  intros D. apply (consumed_no_done events). rewrite H.
  apply in_or_app. auto.
Qed.

Lemma events_loop_invariant (P : state Time -> Prop) :
  (forall s e, P s -> P (on_event time_time elapsed s e)) ->
  forall es s, P s -> P (events_loop time_time elapsed s es).
Proof.
  intros step es; induction es as [|e es IH]; intros s H; [exact H|].
  destruct e; [exact H | |]; simpl; apply IH.
  - apply (step s Malformed H).
  - apply (step s (Data choices) H).
Qed.

(** *** What one iteration changes *)

Ltac step_cases :=
  unfold on_content, receive, scan;
  repeat match goal with
         | |- context [if ?b then _ else _] => destruct b eqn:?; simpl
         | |- context [match first_marker ?a ?b with _ => _ end] =>
             destruct (first_marker a b) eqn:?; simpl
         | |- context [match time_to_thinking_end ?s with _ => _ end] =>
             destruct (time_to_thinking_end s) eqn:?; simpl
         end.

Lemma on_content_raw s content :
  raw_content (on_content time_time elapsed s content)
  = raw_content s ++ content.
Proof. step_cases; reflexivity. Qed.

Lemma on_event_raw s e :
  raw_content (on_event time_time elapsed s e)
  = raw_content s ++ event_content e.
Proof.
  rewrite on_event_content. destruct (event_content e) eqn:E.
  - rewrite app_nil_r. reflexivity.
  - apply on_content_raw.
Qed.

Lemma events_loop_raw es s :
  raw_content (events_loop time_time elapsed s es)
  = raw_content s ++ concat (map event_content (consumed es)).
Proof.
  revert s; induction es as [|e es IH]; intros s.
  - simpl. rewrite app_nil_r. reflexivity.
  - destruct e; cbn [events_loop consumed map concat].
    + rewrite app_nil_r. reflexivity.
    + rewrite IH, on_event_raw, <- app_assoc. reflexivity.
    + rewrite IH, on_event_raw, <- app_assoc. reflexivity.
Qed.

Lemma receive_fields s content :
  raw_content (receive time_time elapsed s content) = raw_content s ++ content
  /\ buffer (receive time_time elapsed s content) = buffer s
  /\ in_action_phase (receive time_time elapsed s content) = in_action_phase s
  /\ stdout (receive time_time elapsed s content) = stdout s
  /\ time_to_thinking_end (receive time_time elapsed s content)
     = time_to_thinking_end s
  /\ first_token_received (receive time_time elapsed s content) = true.
Proof. unfold receive. destruct (first_token_received s); simpl; auto 10. Qed.

(** The three outcomes of the marker scan. *)
Lemma scan_detect s content marker :
  first_marker action_markers (buffer s ++ content) = Some marker ->
  in_action_phase (scan time_time elapsed s content) = true
  /\ stdout (scan time_time elapsed s content)
     = stdout s ++ item (split1 (buffer s ++ content) marker) 0 ++ newline
  /\ raw_content (scan time_time elapsed s content) = raw_content s.
Proof.
  intros H. unfold scan. rewrite H.
  destruct (time_to_thinking_end s); simpl; auto.
Qed.

Lemma scan_withhold s content :
  first_marker action_markers (buffer s ++ content) = None ->
  is_potential_marker (buffer s ++ content) = true ->
  in_action_phase (scan time_time elapsed s content) = in_action_phase s
  /\ stdout (scan time_time elapsed s content) = stdout s
  /\ buffer (scan time_time elapsed s content) = buffer s ++ content
  /\ raw_content (scan time_time elapsed s content) = raw_content s.
Proof. intros H P. unfold scan. rewrite H, P. simpl. auto. Qed.

Lemma scan_flush s content :
  first_marker action_markers (buffer s ++ content) = None ->
  is_potential_marker (buffer s ++ content) = false ->
  in_action_phase (scan time_time elapsed s content) = in_action_phase s
  /\ stdout (scan time_time elapsed s content)
     = stdout s ++ buffer s ++ content
  /\ buffer (scan time_time elapsed s content) = []
  /\ raw_content (scan time_time elapsed s content) = raw_content s.
Proof. intros H P. unfold scan. rewrite H, P. simpl. auto. Qed.

Lemma on_content_action s content :
  in_action_phase s = true ->
  on_content time_time elapsed s content = receive time_time elapsed s content.
Proof.
  intros H. unfold on_content.
  destruct (receive_fields s content) as [_ [_ [-> _]]]. rewrite H. reflexivity.
Qed.

Lemma on_content_thinking s content :
  in_action_phase s = false ->
  on_content time_time elapsed s content
  = scan time_time elapsed (receive time_time elapsed s content) content.
Proof.
  intros H. unfold on_content.
  destruct (receive_fields s content) as [_ [_ [-> _]]]. rewrite H. reflexivity.
Qed.

(** *** The invariant of the live output *)

Lemma stream_inv_initial : stream_inv (@initial Time).
Proof.
  unfold stream_inv; simpl. repeat split.
  - intros m Hm [pre [post E]].
    destruct pre; [|discriminate].
    destruct Hm as [<- | [<- | []]]; discriminate.
  - intros p [m [i [Hm [Hi ->]]]] [k E].
    destruct k; [|discriminate]. simpl in E.
    destruct Hm as [<- | [<- | []]]; destruct i; try lia; discriminate.
Qed.

Lemma stream_inv_on_content s content :
  stream_inv s -> stream_inv (on_content time_time elapsed s content).
Proof.
  unfold stream_inv at 1. intros H.
  destruct (receive_fields s content) as [Rraw [Rbuf [Ract [Rout _]]]].
  destruct (in_action_phase s) eqn:A.
  - rewrite (on_content_action s content A). unfold stream_inv.
    rewrite Ract, ?A, Rraw, Rout.
    destruct H as [m [pre [post [Hm [F O]]]]].
    exists m, pre, (post ++ content). repeat split; auto.
    + rewrite (proj1 F), <- !app_assoc. reflexivity.
    + apply (first_at_app m (raw_content s) pre post content F).
  - rewrite (on_content_thinking s content A).
    destruct H as [Hraw [Hno Htail]].
    set (r := receive time_time elapsed s content) in *.
    assert (Hout : forall m, In m action_markers -> ~ occurs m (stdout s)).
    { intros m Hm O. apply (Hno m Hm). rewrite Hraw. apply occurs_app_l, O. }
    assert (Eraw : raw_content s ++ content = stdout s ++ buffer s ++ content).
    { rewrite Hraw, <- app_assoc. reflexivity. }
    unfold stream_inv.
    destruct (first_marker action_markers (buffer r ++ content)) as [m|] eqn:FM.
    + destruct (scan_detect r content m FM) as [-> [-> ->]].
      rewrite Rbuf in *. rewrite Rraw, Rout, Eraw.
      destruct (first_marker_some _ _ FM) as [Hm Hocc].
      destruct (occurs_first_at _ _ Hocc) as [pre [post F]].
      rewrite (split1_first_at _ _ _ _ F). simpl.
      exists m, (stdout s ++ pre), post. repeat split; auto.
      * rewrite (proj1 F), <- !app_assoc. reflexivity.
      * apply (first_at_extend (stdout s) (buffer s ++ content) m pre post);
          auto.
      * rewrite <- app_assoc. reflexivity.
    + assert (Hbuf : forall m, In m action_markers ->
                               ~ occurs m (buffer s ++ content)).
      { rewrite Rbuf in FM. apply first_marker_none, FM. }
      destruct (is_potential_marker (buffer r ++ content)) eqn:P.
      * destruct (scan_withhold r content FM P) as [-> [-> [-> ->]]].
        rewrite Ract, ?A, Rraw, Rout, Rbuf. repeat split; auto.
        rewrite Eraw. apply no_marker_extend; auto.
      * destruct (scan_flush r content FM P) as [-> [-> [-> ->]]].
        rewrite Ract, ?A, Rraw, Rout, Rbuf, app_nil_r. repeat split; auto.
        -- rewrite Eraw. apply no_marker_extend; auto.
        -- rewrite Rbuf in P. apply flush_keeps_tail; auto.
Qed.

Lemma stream_inv_on_event s e :
  stream_inv s -> stream_inv (on_event time_time elapsed s e).
Proof.
  intros H. rewrite on_event_content. destruct (event_content e); [exact H|].
  apply stream_inv_on_content, H.
Qed.

Lemma stream_inv_events_loop events :
  stream_inv (events_loop time_time elapsed initial events).
Proof.
  apply events_loop_invariant; [apply stream_inv_on_event|].
  apply stream_inv_initial.
Qed.

(** C1. A marker split across chunks is not echoed piecemeal.  While the
    action phase has not begun: a chunk after which the buffer holds no
    marker and ends with a non-empty proper prefix of a marker prints
    nothing and stays in the buffer; a chunk that completes a marker
    prints the buffer's text strictly before that marker's first
    occurrence, and a newline, and starts the action phase.  So at every
    point of every stream ([stream_inv]): in the thinking phase the
    printed text is a prefix of the raw content that holds no marker and
    does not end with a proper prefix of one, the rest being withheld in
    the buffer; in the action phase the printed text is the raw content
    before the first occurrence of a marker, and a newline. *)
Theorem C1_split_marker_withheld :
  (forall s content,
      in_action_phase s = false ->
      (forall marker, In marker action_markers ->
                      ~ occurs marker (buffer s ++ content)) ->
      (exists p, marker_prefix p /\ suffix p (buffer s ++ content)) ->
      stdout (on_content time_time elapsed s content) = stdout s
      /\ buffer (on_content time_time elapsed s content) = buffer s ++ content
      /\ in_action_phase (on_content time_time elapsed s content) = false)
  /\ (forall s content marker,
      in_action_phase s = false ->
      first_marker action_markers (buffer s ++ content) = Some marker ->
      exists pre post,
        first_at marker (buffer s ++ content) pre post
        /\ stdout (on_content time_time elapsed s content)
           = stdout s ++ pre ++ newline
        /\ in_action_phase (on_content time_time elapsed s content) = true)
  /\ (forall events,
      stream_inv (events_loop time_time elapsed initial events)).
Proof.
  split; [|split].
  - intros s content A Hno Hp.
    destruct (receive_fields s content) as [_ [Rbuf [Ract [Rout _]]]].
    rewrite (on_content_thinking s content A).
    apply first_marker_none in Hno. apply is_potential_marker_iff in Hp.
    rewrite <- Rbuf in Hno, Hp.
    destruct (scan_withhold _ content Hno Hp) as [-> [-> [-> _]]].
    rewrite Rbuf, Ract, Rout. auto.
  - intros s content m A FM.
    destruct (receive_fields s content) as [_ [Rbuf [_ [Rout _]]]].
    rewrite (on_content_thinking s content A).
    destruct (first_marker_some _ _ FM) as [Hm Hocc].
    destruct (occurs_first_at _ _ Hocc) as [pre [post F]].
    exists pre, post. rewrite <- Rbuf in FM.
    destruct (scan_detect _ content m FM) as [-> [-> _]].
    rewrite Rbuf, Rout, (split1_first_at _ _ _ _ F). auto.
  - apply stream_inv_events_loop.
Qed.

(** C5. At every point of the loop (after any number of events),
    [raw_content] is the concatenation, in arrival order, of the
    non-empty contents of the events consumed so far; whatever was
    printed or buffered, and in either phase.  For a stream of text
    chunks it is their concatenation, however the text is chunked. *)
Theorem C5_raw_content_concatenation :
  (forall events,
      raw_content (events_loop time_time elapsed initial events)
      = concat (filter (fun c => match c with [] => false | _ => true end)
                       (map event_content (consumed events))))
  /\ (forall chunks,
      raw_content (events_loop time_time elapsed initial (map chunk chunks))
      = concat chunks).
Proof.
  assert (F : forall l : list str,
             concat (filter (fun c => match c with [] => false | _ => true end) l)
             = concat l).
  { induction l as [|c l IH]; [reflexivity|].
    destruct c; simpl; rewrite IH; reflexivity. }
  split.
  - intros events. rewrite events_loop_raw, F. reflexivity.
  - intros chunks. rewrite events_loop_raw. simpl. f_equal.
    induction chunks as [|c chunks IH]; [reflexivity|].
    simpl. rewrite IH. f_equal. destruct c; reflexivity.
Qed.

Lemma on_event_action s e :
  in_action_phase s = true ->
  in_action_phase (on_event time_time elapsed s e) = true.
Proof.
  intros A. rewrite on_event_content.
  destruct (event_content e) as [|c content]; [exact A|].
  rewrite (on_content_action s _ A).
  destruct (receive_fields s (c :: content)) as [_ [_ [-> _]]]. exact A.
Qed.

Lemma events_loop_action es s :
  in_action_phase s = true ->
  in_action_phase (events_loop time_time elapsed s es) = true.
Proof.
  intros A.
  apply (events_loop_invariant (fun s => in_action_phase s = true));
    [intros; apply on_event_action; assumption | exact A].
Qed.

Lemma events_loop_action_app es more s :
  in_action_phase (events_loop time_time elapsed s es) = true ->
  in_action_phase (events_loop time_time elapsed s (es ++ more)) = true.
Proof.
  revert s; induction es as [|e es IH]; intros s A.
  - apply events_loop_action, A.
  - destruct e; cbn [events_loop app] in *; auto.
Qed.

(** C6. The phase changes one way: an iteration that starts in the
    action phase ends in it, so once the flag is true after some events
    it is true after any further events. *)
Theorem C6_action_phase_one_way :
  (forall s e,
      in_action_phase s = true ->
      in_action_phase (on_event time_time elapsed s e) = true)
  /\ (forall events more,
      in_action_phase (events_loop time_time elapsed initial events) = true ->
      in_action_phase (events_loop time_time elapsed initial (events ++ more))
      = true).
Proof.
  split.
  - apply on_event_action.
  - intros events more. apply events_loop_action_app.
Qed.

(** *** The invariant of the timing variables *)

Lemma timing_inv_initial : timing_inv time_time elapsed initial.
Proof. unfold timing_inv; simpl; auto. Qed.

Lemma timing_inv_on_content s content :
  content <> [] ->
  timing_inv time_time elapsed s ->
  timing_inv time_time elapsed (on_content time_time elapsed s content).
Proof.
  intros Hc. destruct s as [raw buf act ftr ttft ttte out clk].
  assert (Hne : forall r : str, r ++ content <> []).
  { intros r E. apply app_eq_nil in E. tauto. }
  unfold timing_inv, on_content, receive, scan, start_time.
  cbn -[first_marker is_potential_marker]. intros [H1 H2].
  destruct ftr, act; cbn -[first_marker is_potential_marker] in *;
    destruct H1 as [? H1]; destruct H2 as [? ?]; subst;
    try (destruct H1; discriminate); auto;
    destruct (first_marker action_markers (buf ++ content));
    cbn -[first_marker is_potential_marker]; auto;
    destruct (is_potential_marker (buf ++ content));
    cbn -[first_marker is_potential_marker]; auto.
Qed.

Lemma timing_inv_on_event s e :
  timing_inv time_time elapsed s ->
  timing_inv time_time elapsed (on_event time_time elapsed s e).
Proof.
  intros H. rewrite on_event_content.
  destruct (event_content e) as [|c content]; [exact H|].
  apply timing_inv_on_content; [discriminate | exact H].
Qed.

Lemma timing_inv_events_loop events :
  timing_inv time_time elapsed (events_loop time_time elapsed initial events).
Proof.
  apply events_loop_invariant; [apply timing_inv_on_event|].
  apply timing_inv_initial.
Qed.

Lemma consumed_id es : ~ In Done es -> consumed es = es.
Proof.
  induction es as [|e es IH]; intros H; [reflexivity|].
  simpl in H. destruct e; simpl; try (f_equal; apply IH; tauto).
  exfalso; auto.
Qed.

Lemma consumed_prefix events es1 rest :
  consumed events = es1 ++ rest -> consumed es1 = es1.
Proof.
  intros H. apply consumed_id. intros D.
  apply (consumed_no_done events). rewrite H. apply in_or_app. auto.
Qed.

Lemma concat_content_nil es :
  concat (map event_content es) = []
  <-> forall e, In e es -> event_content e = [].
Proof.
  induction es as [|x es IH]; simpl.
  - split; [intros _ e [] | reflexivity].
  - split.
    + intros H. apply app_eq_nil in H as [Hx H].
      intros e [<- | He]; [exact Hx | apply IH; assumption].
    + intros H. rewrite (H x) by auto. apply IH. auto.
Qed.

Lemma first_token_received_iff events :
  first_token_received (events_loop time_time elapsed initial events) = false
  <-> forall e, In e (consumed events) -> event_content e = [].
Proof.
  pose proof (timing_inv_events_loop events) as [T _].
  pose proof (events_loop_raw events initial) as R. simpl in R.
  rewrite R in T. rewrite <- concat_content_nil.
  destruct (first_token_received _); split; intros H; try tauto; try discriminate.
Qed.

Lemma first_nonempty_split es :
  (forall e, In e es -> event_content e = [])
  \/ exists es1 e es2,
       es = es1 ++ e :: es2 /\ event_content e <> []
       /\ forall e', In e' es1 -> event_content e' = [].
Proof.
  induction es as [|x es IH].
  - left. intros e [].
  - destruct (event_content x) as [|c content] eqn:X.
    + destruct IH as [IH | [es1 [e [es2 [E [Hne Hall]]]]]].
      * left. intros e [<- | H]; auto.
      * right. exists (x :: es1), e, es2. rewrite E. repeat split; auto.
        intros e' [<- | H]; auto.
    + right. exists [], x, es. rewrite X. repeat split.
      * discriminate.
      * intros e' [].
Qed.

Lemma on_content_first_token s content :
  time_to_first_token (on_content time_time elapsed s content)
  = if first_token_received s then time_to_first_token s
    else Some (elapsed (time_time (clock s)) (time_time 0)).
Proof. step_cases; reflexivity. Qed.

Lemma scan_none_thinking_end s content :
  first_marker action_markers (buffer s ++ content) = None ->
  time_to_thinking_end (scan time_time elapsed s content)
  = time_to_thinking_end s.
Proof.
  intros H. unfold scan. rewrite H.
  destruct (is_potential_marker _); reflexivity.
Qed.

Lemma phase_flip_exists es :
  ~ In Done es ->
  in_action_phase (events_loop time_time elapsed initial es) = true ->
  exists es1 e es2,
    es = es1 ++ e :: es2
    /\ in_action_phase (events_loop time_time elapsed initial es1) = false
    /\ in_action_phase (events_loop time_time elapsed initial (es1 ++ [e]))
       = true.
Proof.
  induction es as [|x es IH] using rev_ind; intros D A; [discriminate|].
  destruct (in_action_phase (events_loop time_time elapsed initial es)) eqn:B.
  - destruct IH as [es1 [e [es2 [E [H1 H2]]]]]; auto.
    { intros H. apply D, in_or_app. auto. }
    exists es1, e, (es2 ++ [x]). rewrite E, <- app_assoc. auto.
  - exists es, x, []. auto.
Qed.

Lemma split_compare (es1 es2 es1' es2' : list event) e e' :
  es1 ++ e :: es2 = es1' ++ e' :: es2' ->
  es1 = es1'
  \/ (exists l, es1' = (es1 ++ [e]) ++ l)
  \/ (exists l, es1 = (es1' ++ [e']) ++ l).
Proof.
  intros H. apply app_eq_app in H as [l [[H1 H2] | [H1 H2]]].
  - destruct l as [|x l].
    + left. rewrite H1, app_nil_r. reflexivity.
    + right. right. injection H2 as <- _. exists l.
      rewrite H1, <- app_assoc. reflexivity.
  - destruct l as [|x l].
    + left. rewrite H1, app_nil_r. reflexivity.
    + right. left. injection H2 as <- _. exists l.
      rewrite H1, <- app_assoc. reflexivity.
Qed.

Variable metrics_report : option Time -> option Time -> Time -> str.

Lemma request_fields events :
  let s := events_loop time_time elapsed initial events in
  let r := fst (request time_time elapsed metrics_report events) in
  response_raw_content r = raw_content s
  /\ response_time_to_first_token r = time_to_first_token s
  /\ response_time_to_thinking_end r = time_to_thinking_end s
  /\ (thinking r, action r) = _parse_response (raw_content s).
Proof.
  unfold request. destruct (_parse_response _). simpl. auto.
Qed.

Lemma first_token_none_iff events :
  time_to_first_token (events_loop time_time elapsed initial events) = None
  <-> first_token_received (events_loop time_time elapsed initial events)
      = false.
Proof.
  pose proof (timing_inv_events_loop events) as [T _].
  destruct (first_token_received _).
  - destruct T as [-> _]. split; discriminate.
  - destruct T as [-> _]. tauto.
Qed.

Lemma thinking_end_none_iff events :
  time_to_thinking_end (events_loop time_time elapsed initial events) = None
  <-> in_action_phase (events_loop time_time elapsed initial events) = false.
Proof.
  pose proof (timing_inv_events_loop events) as [_ T].
  destruct (in_action_phase _).
  - destruct T as [-> _]. split; discriminate.
  - destruct T as [-> _]. tauto.
Qed.

Lemma action_phase_iff_marker events :
  in_action_phase (events_loop time_time elapsed initial events) = false
  <-> forall marker,
        In marker action_markers ->
        ~ occurs marker
            (raw_content (events_loop time_time elapsed initial events)).
Proof.
  pose proof (stream_inv_events_loop events) as I. unfold stream_inv in I.
  destruct (in_action_phase _).
  - destruct I as [m [pre [post [Hm [[E _] _]]]]]. split; [discriminate|].
    intros H. exfalso. apply (H m Hm). exists pre, post. exact E.
  - split; [intros _; apply I | reflexivity].
Qed.

(** C8. [time_to_first_token] is set once, by the first consumed event
    whose delta content is not empty: it is [None] exactly when every
    consumed event has empty content; along the stream its value changes
    at an event exactly when that event has non-empty content and all
    events before it have none, and once set it is not altered; when set
    it is the second clock reading less the first, and such a first event
    exists; and the response carries that value. *)
Theorem C8_time_to_first_token events :
  let final := events_loop time_time elapsed initial events in
  (time_to_first_token final = None
   <-> forall e, In e (consumed events) -> event_content e = [])
  /\ (forall es1 e es2,
        consumed events = es1 ++ e :: es2 ->
        let before := events_loop time_time elapsed initial es1 in
        let after := events_loop time_time elapsed initial (es1 ++ [e]) in
        (time_to_first_token after <> time_to_first_token before
         <-> event_content e <> []
             /\ forall e', In e' es1 -> event_content e' = [])
        /\ (time_to_first_token before <> None ->
            time_to_first_token after = time_to_first_token before))
  /\ (time_to_first_token final <> None ->
      time_to_first_token final = Some (elapsed (time_time 1) (time_time 0))
      /\ exists es1 e es2,
           consumed events = es1 ++ e :: es2 /\ event_content e <> []
           /\ forall e', In e' es1 -> event_content e' = [])
  /\ response_time_to_first_token
       (fst (request time_time elapsed metrics_report events))
     = time_to_first_token final.
Proof.
  cbv zeta. split; [|split; [|split]].
  - rewrite first_token_none_iff. apply first_token_received_iff.
  - intros es1 e es2 E.
    rewrite (events_loop_snoc initial events es1 e es2 E).
    pose proof (first_token_received_iff es1) as F.
    rewrite (consumed_prefix events es1 (e :: es2) E) in F.
    pose proof (first_token_none_iff es1) as N.
    rewrite on_event_content.
    destruct (event_content e) as [|c content].
    { split; [|reflexivity]. split; [congruence | intros [H _]; congruence]. }
    rewrite on_content_first_token.
    destruct (first_token_received _).
    + split; [|reflexivity]. split; [congruence|].
      intros [_ H]. apply F in H. discriminate.
    + rewrite (proj2 N eq_refl). split; [|congruence].
      split; [|discriminate]. intros _. split; [discriminate | apply F; reflexivity].
  - intros H.
    pose proof (timing_inv_events_loop events) as [T _].
    pose proof (first_token_none_iff events) as N.
    pose proof (first_token_received_iff events) as F.
    destruct (first_token_received _); [|exfalso; tauto].
    split; [apply T|].
    destruct (first_nonempty_split (consumed events)) as [A | A]; [|exact A].
    apply F in A. discriminate.
  - apply (request_fields events).
Qed.

Lemma thinking_end_change es es' :
  time_to_thinking_end (events_loop time_time elapsed initial es')
  <> time_to_thinking_end (events_loop time_time elapsed initial es) ->
  in_action_phase (events_loop time_time elapsed initial es')
  <> in_action_phase (events_loop time_time elapsed initial es).
Proof.
  pose proof (timing_inv_events_loop es) as [_ T].
  pose proof (timing_inv_events_loop es') as [_ T'].
  destruct (in_action_phase _), (in_action_phase _);
    destruct T as [-> _], T' as [-> _]; congruence.
Qed.

(** C7. [time_to_thinking_end] is set once, by the chunk on which a
    marker is first detected in the buffer: it is [None] exactly when the
    action phase never began, which is exactly when no marker occurs in
    the raw content; along the stream its value changes at an event
    exactly when the action phase has not begun, the event has content,
    and the buffer with that content holds a marker; an event processed
    in the action phase leaves it as it is; there is at most one event at
    which it changes; when set it is the third clock reading less the
    first, and the event that set it exists; and the response carries
    that value. *)
Theorem C7_time_to_thinking_end events :
  let final := events_loop time_time elapsed initial events in
  (time_to_thinking_end final = None <-> in_action_phase final = false)
  /\ (time_to_thinking_end final = None
      <-> forall marker, In marker action_markers ->
                         ~ occurs marker (raw_content final))
  /\ (forall es1 e es2,
        consumed events = es1 ++ e :: es2 ->
        let before := events_loop time_time elapsed initial es1 in
        let after := events_loop time_time elapsed initial (es1 ++ [e]) in
        (time_to_thinking_end after <> time_to_thinking_end before
         <-> in_action_phase before = false
             /\ event_content e <> []
             /\ first_marker action_markers (buffer before ++ event_content e)
                <> None)
        /\ (in_action_phase before = true ->
            time_to_thinking_end after = time_to_thinking_end before))
  /\ (forall es1 e es2 es1' e' es2',
        consumed events = es1 ++ e :: es2 ->
        consumed events = es1' ++ e' :: es2' ->
        time_to_thinking_end (events_loop time_time elapsed initial (es1 ++ [e]))
        <> time_to_thinking_end (events_loop time_time elapsed initial es1) ->
        time_to_thinking_end
          (events_loop time_time elapsed initial (es1' ++ [e']))
        <> time_to_thinking_end (events_loop time_time elapsed initial es1') ->
        es1 = es1')
  /\ (time_to_thinking_end final <> None ->
      time_to_thinking_end final = Some (elapsed (time_time 2) (time_time 0))
      /\ exists es1 e es2,
           consumed events = es1 ++ e :: es2
           /\ time_to_thinking_end (events_loop time_time elapsed initial es1)
              = None
           /\ time_to_thinking_end
                (events_loop time_time elapsed initial (es1 ++ [e]))
              <> None)
  /\ response_time_to_thinking_end
       (fst (request time_time elapsed metrics_report events))
     = time_to_thinking_end final.
Proof.
  cbv zeta. split; [|split; [|split; [|split; [|split]]]].
  - apply thinking_end_none_iff.
  - rewrite thinking_end_none_iff. apply action_phase_iff_marker.
  - intros es1 e es2 E.
    pose proof (thinking_end_none_iff (es1 ++ [e])) as Na.
    pose proof (thinking_end_none_iff es1) as Nb.
    rewrite (events_loop_snoc initial events es1 e es2 E) in *.
    set (before := events_loop time_time elapsed initial es1) in *.
    rewrite on_event_content in *.
    destruct (event_content e) as [|c content].
    { split; [|reflexivity]. split; [congruence | intros [_ [H _]]; congruence]. }
    destruct (receive_fields before (c :: content)) as [_ [Rbuf [_ [_ [Rte _]]]]].
    destruct (in_action_phase before) eqn:A.
    + rewrite (on_content_action before _ A), Rte.
      split; [|reflexivity]. split; [congruence | intros [H _]; discriminate].
    + rewrite (on_content_thinking before _ A) in *.
      split; [|discriminate].
      rewrite <- Rbuf.
      destruct (first_marker action_markers
                  (buffer (receive time_time elapsed before (c :: content))
                   ++ c :: content)) as [m|] eqn:FM.
      * split; [intros _; repeat split; discriminate|]. intros _.
        destruct (scan_detect _ _ m FM) as [D _].
        rewrite (proj2 Nb eq_refl). intros H. apply Na in H. congruence.
      * rewrite (scan_none_thinking_end _ _ FM), Rte.
        split; [congruence | intros [_ [_ H]]; congruence].
  - intros es1 e es2 es1' e' es2' E E' C C'.
    apply thinking_end_change in C, C'.
    assert (M : forall l x k,
               in_action_phase
                 (events_loop time_time elapsed initial (l ++ [x])) = true ->
               in_action_phase
                 (events_loop time_time elapsed initial ((l ++ [x]) ++ k))
               = true).
    { intros l x k. apply events_loop_action_app. }
    assert (S1 : forall l x,
               in_action_phase (events_loop time_time elapsed initial l) = true ->
               in_action_phase
                 (events_loop time_time elapsed initial (l ++ [x])) = true).
    { intros l x. apply events_loop_action_app. }
    rewrite E in E'.
    destruct (split_compare _ _ _ _ _ _ E') as [H | [[l H] | [l H]]]; [exact H | |];
      exfalso.
    + pose proof (M es1 e l) as M1. pose proof (S1 es1 e) as Sa.
      pose proof (S1 es1' e') as Sb. rewrite <- H in M1. clear M S1.
      destruct (in_action_phase (events_loop time_time elapsed initial es1)),
        (in_action_phase (events_loop time_time elapsed initial (es1 ++ [e]))),
        (in_action_phase (events_loop time_time elapsed initial es1')),
        (in_action_phase (events_loop time_time elapsed initial (es1' ++ [e'])));
        intuition congruence.
    + pose proof (M es1' e' l) as M1. pose proof (S1 es1 e) as Sa.
      pose proof (S1 es1' e') as Sb. rewrite <- H in M1. clear M S1.
      destruct (in_action_phase (events_loop time_time elapsed initial es1)),
        (in_action_phase (events_loop time_time elapsed initial (es1 ++ [e]))),
        (in_action_phase (events_loop time_time elapsed initial es1')),
        (in_action_phase (events_loop time_time elapsed initial (es1' ++ [e'])));
        intuition congruence.
  - intros H.
    pose proof (timing_inv_events_loop events) as [_ T].
    pose proof (thinking_end_none_iff events) as N.
    destruct (in_action_phase (events_loop time_time elapsed initial events))
      eqn:A; [|exfalso; tauto].
    split; [apply T|].
    rewrite <- events_loop_consumed in A.
    destruct (phase_flip_exists (consumed events) (consumed_no_done events) A)
      as [es1 [e [es2 [E [B C]]]]].
    exists es1, e, es2. split; [exact E|]. split.
    + apply thinking_end_none_iff, B.
    + intros F. apply thinking_end_none_iff in F. congruence.
  - apply (request_fields events).
Qed.

End Loop.

(* ===================================================================== *)
(** ** The statements on concrete streams *)
(* ===================================================================== *)

Lemma C1_split_marker_withheld_witness :
  (stdout (on_content tick Nat.sub initial (lit "hello do(acti")) = []
   /\ buffer (on_content tick Nat.sub initial (lit "hello do(acti"))
      = lit "hello do(acti")
  /\ (exists pre post,
        first_at DO (lit "hello do(action=run)") pre post
        /\ stdout (on_content tick Nat.sub
                     (run [chunk (lit "hello do(acti")]) (lit "on=run)"))
           = pre ++ newline)
  /\ stream_inv (run [chunk (lit "hello do(acti"); chunk (lit "on=run)")]).
Proof.
  destruct (@C1_split_marker_withheld nat tick Nat.sub) as [W [D I]].
  split; [|split].
  - destruct (W initial (lit "hello do(acti")) as [H1 [H2 _]].
    + reflexivity.
    + apply first_marker_none. reflexivity.
    + exists (lit "do(acti"). split.
      * exists DO, 7. simpl. repeat split; auto; lia.
      * exists (lit "hello "). reflexivity.
    + split; [exact H1 | exact H2].
  - destruct (D (run [chunk (lit "hello do(acti")]) (lit "on=run)") DO)
      as [pre [post [F [O _]]]]; [reflexivity | reflexivity |].
    exists pre, post. split; [exact F | exact O].
  - apply I.
Defined.

Lemma C6_action_phase_one_way_witness :
  in_action_phase (run [chunk (lit "do(action="); chunk (lit "Tap)")]) = true.
Proof.
  apply (proj2 (@C6_action_phase_one_way nat tick Nat.sub)
               [chunk (lit "do(action=")] [chunk (lit "Tap)")]).
  reflexivity.
Defined.

Lemma C7_time_to_thinking_end_witness :
  time_to_thinking_end
    (run [chunk (lit "I think... "); chunk (lit "finish(message=");
          chunk (lit "'done')")])
  = Some 2
  /\ time_to_thinking_end (run [chunk (lit "no marker here")]) = None.
Proof.
  split.
  - pose proof (@C7_time_to_thinking_end nat tick Nat.sub (fun _ _ _ => [])
                  [chunk (lit "I think... "); chunk (lit "finish(message=");
                   chunk (lit "'done')")]) as H.
    cbv zeta in H. destruct H as [_ [_ [_ [_ [V _]]]]].
    apply V. discriminate.
  - pose proof (@C7_time_to_thinking_end nat tick Nat.sub (fun _ _ _ => [])
                  [chunk (lit "no marker here")]) as H.
    cbv zeta in H. destruct H as [N _]. apply N. reflexivity.
Defined.

Lemma C8_time_to_first_token_witness :
  time_to_first_token
    (run [Malformed; Data []; chunk (lit "I think... "); chunk (lit "more")])
  = Some 1
  /\ time_to_first_token (run [Malformed; Data []; Done; chunk (lit "late")])
     = None.
Proof.
  split.
  - pose proof (@C8_time_to_first_token nat tick Nat.sub (fun _ _ _ => [])
                  [Malformed; Data []; chunk (lit "I think... ");
                   chunk (lit "more")]) as H.
    cbv zeta in H. destruct H as [_ [_ [V _]]].
    apply V. discriminate.
  - pose proof (@C8_time_to_first_token nat tick Nat.sub (fun _ _ _ => [])
                  [Malformed; Data []; Done; chunk (lit "late")]) as H.
    cbv zeta in H. destruct H as [N _]. apply N.
    intros e [<- | [<- | []]]; reflexivity.
Defined.

(** The scenario of the specification: three chunks, then the sentinel. *)
Example scenario_finish :
  let '(r, _) :=
    request tick Nat.sub (fun _ _ _ => [])
      [chunk (lit "I think... "); chunk (lit "finish(message=");
       chunk (lit "'done')"); Done] in
  thinking r = lit "I think..."
  /\ action r = lit "finish(message='done')"
  /\ response_raw_content r = lit "I think... finish(message='done')".
Proof. repeat split; reflexivity. Qed.

(* ===================================================================== *)
(** ** Further properties of [_parse_response] *)
(* ===================================================================== *)

(** The branch that [_parse_response] takes, by what occurs in the
    content. *)
Lemma parse_cases content :
  (exists pre post,
      first_at FINISH content pre post
      /\ _parse_response content = (strip pre, FINISH ++ post))
  \/ (~ occurs FINISH content
      /\ exists pre post,
           first_at DO content pre post
           /\ _parse_response content = (strip pre, DO ++ post))
  \/ (~ occurs FINISH content /\ ~ occurs DO content
      /\ exists pre post,
           first_at ANSWER content pre post
           /\ _parse_response content
              = (strip (replace (replace pre THINK []) THINK_END []),
                 strip (replace post ANSWER_END [])))
  \/ (~ occurs FINISH content /\ ~ occurs DO content
      /\ ~ occurs ANSWER content
      /\ _parse_response content = ([], content)).
Proof.
  destruct (contains content FINISH) eqn:F.
  { apply contains_iff, occurs_first_at in F as [pre [post F]].
    left. exists pre, post. split; [exact F | apply parse_finish_at, F]. }
  apply contains_false_iff in F. right.
  destruct (contains content DO) eqn:D.
  { apply contains_iff, occurs_first_at in D as [pre [post D]].
    left. split; [exact F|]. exists pre, post.
    split; [exact D | apply parse_do_at; assumption]. }
  apply contains_false_iff in D. right.
  destruct (contains content ANSWER) eqn:A.
  { apply contains_iff, occurs_first_at in A as [pre [post A]].
    left. repeat split; auto. exists pre, post.
    split; [exact A | apply parse_answer_at; assumption]. }
  apply contains_false_iff in A. right.
  repeat split; auto. apply parse_plain; assumption.
Qed.

Lemma strip_length s : length (strip s) <= length s.
Proof.
  destruct (strip_trimmed s) as [l [r [E _]]].
  apply (f_equal (@length _)) in E. rewrite !length_app in E. lia.
Qed.

Lemma replace_scan_length old k s :
  length (replace_scan old [] k s) <= length s.
Proof.
  revert k; induction s as [|c s IH]; intros k; simpl; [lia|].
  destruct k as [|k].
  - destruct (startswith (c :: s) old); simpl.
    + specialize (IH (length old - 1)). lia.
    + specialize (IH 0). lia.
  - specialize (IH k). lia.
Qed.

Lemma replace_length s old :
  old <> [] -> length (replace s old []) <= length s.
Proof.
  destruct old as [|c old]; [congruence|]. intros _.
  apply replace_scan_length.
Qed.

(** X1. The classifier returns no more text than it is given: the
    lengths of the thinking text and of the action add up to at most the
    length of the content, in every branch. *)
Theorem X1_parse_no_longer_than_content content :
  length (fst (_parse_response content))
  + length (snd (_parse_response content))
  <= length content.
Proof.
  destruct (parse_cases content)
    as [[pre [post [[E _] ->]]]
       | [[_ [pre [post [[E _] ->]]]]
         | [[_ [_ [pre [post [[E _] ->]]]]] | [_ [_ [_ ->]]]]]];
    cbn [fst snd]; try (simpl; lia);
    apply (f_equal (@length _)) in E; rewrite !length_app in E.
  - pose proof (strip_length pre). rewrite length_app. lia.
  - pose proof (strip_length pre). rewrite length_app. lia.
  - pose proof (strip_length (replace (replace pre THINK []) THINK_END [])).
    pose proof (strip_length (replace post ANSWER_END [])).
    pose proof (replace_length (replace pre THINK []) THINK_END
                               ltac:(discriminate)).
    pose proof (replace_length pre THINK ltac:(discriminate)).
    pose proof (replace_length post ANSWER_END ltac:(discriminate)).
    lia.
Qed.

(** X2. The thinking text never begins or ends with white space,
    whichever branch produced it, and trimming it again changes
    nothing; in the [<answer>] branch the action is trimmed as well. *)
Theorem X2_thinking_is_trimmed content :
  (forall c u, fst (_parse_response content) = c :: u -> isspace c = false)
  /\ (forall u c, fst (_parse_response content) = u ++ [c] ->
                  isspace c = false)
  /\ (~ occurs FINISH content -> ~ occurs DO content ->
      occurs ANSWER content ->
      (forall c u, snd (_parse_response content) = c :: u ->
                   isspace c = false)
      /\ (forall u c, snd (_parse_response content) = u ++ [c] ->
                      isspace c = false)).
Proof.
  assert (T : forall s, (forall c u, strip s = c :: u -> isspace c = false)
                        /\ (forall u c, strip s = u ++ [c] ->
                                        isspace c = false)).
  { intros s. destruct (strip_trimmed s) as [l [r [_ [_ [_ [H1 H2]]]]]].
    split; assumption. }
  destruct (parse_cases content)
    as [[pre [post [F P]]]
       | [[NF [pre [post [F P]]]]
         | [[NF [ND [pre [post [F P]]]]] | [NF [ND [NA P]]]]]];
    rewrite P; cbn [fst snd].
  - split; [apply T | split; [apply T|]].
    intros NF. exfalso. apply NF. exists pre, post. apply F.
  - split; [apply T | split; [apply T|]].
    intros _ ND. exfalso. apply ND. exists pre, post. apply F.
  - split; [apply T | split; [apply T | intros _ _ _; apply T]].
  - split; [intros c u H; discriminate | split].
    + intros [|x u] c H; discriminate.
    + intros _ _ A. contradiction.
Qed.

Lemma X2_thinking_is_trimmed_witness :
  (forall c u, snd (_parse_response (lit " a <answer> 42 </answer> "))
               = c :: u -> isspace c = false)
  /\ (forall u c, snd (_parse_response (lit " a <answer> 42 </answer> "))
                  = u ++ [c] -> isspace c = false).
Proof.
  apply (X2_thinking_is_trimmed (lit " a <answer> 42 </answer> "));
    try (apply contains_false_iff; reflexivity).
  apply contains_iff. reflexivity.
Defined.

Lemma occurs_suffix m p s : occurs m s -> occurs m (p ++ s).
Proof.
  intros [pre [post ->]]. exists (p ++ pre), post.
  rewrite <- app_assoc. reflexivity.
Qed.

Lemma first_at_head m post : first_at m (m ++ post) [] post.
Proof. split; [reflexivity | intros; simpl; lia]. Qed.

(** X3. Classifying an action again gives it back: when the content
    holds an action marker, or holds none of the three markers, the
    action that [_parse_response] returns is classified as that same
    action with empty thinking text. *)
Theorem X3_parse_action_again content :
  occurs FINISH content \/ occurs DO content \/ ~ occurs ANSWER content ->
  _parse_response (snd (_parse_response content))
  = ([], snd (_parse_response content)).
Proof.
  intros H.
  destruct (parse_cases content)
    as [[pre [post [F P]]]
       | [[NF [pre [post [F P]]]]
         | [[NF [ND [pre [post [F P]]]]] | [NF [ND [NA P]]]]]];
    rewrite P; cbn [snd].
  - apply (parse_finish_at _ _ _ (first_at_head FINISH post)).
  - apply (parse_do_at (DO ++ post) [] post); [|apply first_at_head].
    intros O. apply NF. rewrite (proj1 F). apply occurs_suffix, O.
  - exfalso. destruct H as [H | [H | H]]; try contradiction.
    apply H. exists pre, post. apply F.
  - apply parse_plain; assumption.
Qed.

Lemma X3_parse_action_again_witness :
  _parse_response (lit "do(action=Tap)") = ([], lit "do(action=Tap)").
Proof.
  apply (X3_parse_action_again (lit " tap it do(action=Tap)")).
  right. left. apply contains_iff. reflexivity.
Defined.

Example parse_answer_twice :
  _parse_response (snd (_parse_response (lit "<answer>a<answer>b")))
  = (lit "a", lit "b").
Proof. reflexivity. Qed.

(* ===================================================================== *)
(** ** The constructor and the endpoint *)
(* ===================================================================== *)

Lemma lstrip_chars_spec s chars :
  exists l,
    s = l ++ lstrip_chars s chars
    /\ (forall c, In c l -> existsb (N.eqb c) chars = true)
    /\ (forall c u, lstrip_chars s chars = c :: u ->
                    existsb (N.eqb c) chars = false).
Proof.
  induction s as [|a s [l [E [W F]]]]; simpl.
  - exists []. repeat split; [intros c [] | intros; discriminate].
  - destruct (existsb (N.eqb a) chars) eqn:Ea.
    + exists (a :: l). simpl. repeat split; auto.
      * f_equal. exact E.
      * intros c [<- | H]; auto.
    + exists []. repeat split; [intros c [] |].
      intros c u [= <- _]. exact Ea.
Qed.

Lemma rstrip_chars_spec s chars :
  exists r,
    s = rstrip_chars s chars ++ r
    /\ (forall c, In c r -> existsb (N.eqb c) chars = true)
    /\ (forall u c, rstrip_chars s chars = u ++ [c] ->
                    existsb (N.eqb c) chars = false).
Proof.
  unfold rstrip_chars. destruct (lstrip_chars_spec (rev s) chars) as [l [E [W F]]].
  exists (rev l). repeat split.
  - rewrite <- rev_app_distr, <- E, rev_involutive. reflexivity.
  - intros c H. apply in_rev in H. auto.
  - intros u c H. apply (f_equal (@rev _)) in H.
    rewrite rev_involutive, rev_app_distr in H. simpl in H. eauto.
Qed.

Lemma lstrip_chars_repeat c chars n t :
  existsb (N.eqb c) chars = true ->
  lstrip_chars (repeat c n ++ t) chars = lstrip_chars t chars.
Proof.
  intros H. induction n as [|n IH]; [reflexivity|].
  simpl. rewrite H. exact IH.
Qed.

Lemma all_slashes (r : str) :
  (forall c, In c r -> existsb (N.eqb c) (lit "/") = true) ->
  r = repeat 47%N (length r).
Proof.
  induction r as [|c r IH]; intros H; [reflexivity|].
  simpl. f_equal.
  - specialize (H c (or_introl eq_refl)). simpl in H.
    rewrite orb_false_r in H. apply N.eqb_eq, H.
  - apply IH. intros x Hx. apply H. right. exact Hx.
Qed.

(** X4. Trailing slashes of the configured base URL do not reach the
    endpoint: the URL is the same for any number of them, and it is the
    base URL without its trailing slashes (a stem that does not end with
    a slash) followed by ["/v1/chat/completions"]. *)
Theorem X4_url_trailing_slashes config_base_url config_api_key :
  (forall n,
      url (init (config_base_url ++ repeat 47%N n) config_api_key)
      = url (init config_base_url config_api_key))
  /\ (exists stem k,
        config_base_url = stem ++ repeat 47%N k
        /\ ~ suffix (lit "/") stem
        /\ url (init config_base_url config_api_key)
           = stem ++ lit "/v1/chat/completions").
Proof.
  split.
  - intros n. unfold url, init. cbn [base_url]. f_equal.
    unfold rstrip_chars. f_equal.
    rewrite rev_app_distr, rev_repeat. apply lstrip_chars_repeat. reflexivity.
  - destruct (rstrip_chars_spec config_base_url (lit "/")) as [r [E [W F]]].
    exists (rstrip_chars config_base_url (lit "/")), (length r).
    split; [|split].
    + rewrite <- (all_slashes r W). exact E.
    + intros [u H]. apply F in H. discriminate.
    + reflexivity.
Qed.

Example url_of_base :
  url (init (lit "http://localhost:8080//") None)
  = lit "http://localhost:8080/v1/chat/completions"
  /\ headers (init (lit "http://localhost:8080") (Some (lit "k")))
     = [(lit "Content-Type", lit "application/json");
        (lit "Authorization", lit "Bearer k")]
  /\ headers (init (lit "http://localhost:8080") (Some []))
     = [(lit "Content-Type", lit "application/json")].
Proof. repeat split; reflexivity. Qed.

(* ===================================================================== *)
(** ** Further properties of [request] *)
(* ===================================================================== *)

Lemma concat_filter_nonempty (l : list str) :
  concat (filter nonempty l) = concat l.
Proof.
  induction l as [|c l IH]; [reflexivity|].
  destruct c; simpl; rewrite IH; reflexivity.
Qed.

Lemma event_content_chunk content : event_content (chunk content) = content.
Proof. destruct content; reflexivity. Qed.

Lemma contents_cons e events :
  e <> Done ->
  contents (e :: events)
  = (if nonempty (event_content e) then [event_content e] else [])
    ++ contents events.
Proof.
  intros H. unfold contents. destruct e; [congruence | reflexivity |].
  cbn [consumed map filter]. destruct (nonempty _); reflexivity.
Qed.

Section Stream.

Variable Time : Type.
Variable time_time : nat -> Time.
Variable elapsed : Time -> Time -> Time.
Variable metrics_report : option Time -> option Time -> Time -> str.

Implicit Types (s : state Time) (e : event) (es events more : list event).

Lemma events_loop_contents events s :
  events_loop time_time elapsed s events
  = events_loop time_time elapsed s (map chunk (contents events)).
Proof.
  revert s; induction events as [|e events IH]; intros s; [reflexivity|].
  destruct e as [| |choices]; [reflexivity | exact (IH s) |].
  rewrite contents_cons by discriminate.
  cbn [events_loop]. rewrite (on_event_content _ time_time elapsed).
  destruct (event_content (Data choices)) as [|c content];
    cbn [nonempty app map]; [apply IH|].
  rewrite IH. reflexivity.
Qed.

(** X5. A request is determined by the non-empty content strings that
    arrive before the sentinel: events that are not JSON, have no
    choices or have no content, and every event after ["[DONE]"], change
    neither the response nor what is printed. *)
Theorem X5_request_depends_on_contents events :
  request time_time elapsed metrics_report events
  = request time_time elapsed metrics_report (map chunk (contents events)).
Proof.
  unfold request. rewrite (events_loop_contents events initial). reflexivity.
Qed.

(** X6. The classified response does not depend on how the text is cut
    into chunks: two streams whose contents concatenate to the same text
    give the same thinking text, action and raw content. *)
Theorem X6_response_independent_of_chunking events events' :
  concat (contents events) = concat (contents events') ->
  let r := fst (request time_time elapsed metrics_report events) in
  let r' := fst (request time_time elapsed metrics_report events') in
  thinking r = thinking r' /\ action r = action r'
  /\ response_raw_content r = response_raw_content r'.
Proof.
  intros H. cbv zeta.
  destruct (request_fields _ time_time elapsed metrics_report events)
    as [R [_ [_ P]]].
  destruct (request_fields _ time_time elapsed metrics_report events')
    as [R' [_ [_ P']]].
  cbv zeta in *.
  assert (E : raw_content (events_loop time_time elapsed initial events)
              = raw_content (events_loop time_time elapsed initial events')).
  { rewrite !(events_loop_raw _ time_time elapsed). cbn [raw_content initial app].
    unfold contents in H. rewrite !concat_filter_nonempty in H. exact H. }
  rewrite E in *. rewrite <- P' in P. injection P as -> ->.
  rewrite R, R'. auto.
Qed.

Lemma pending_on_event s e :
  (in_action_phase s = false ->
   buffer s = [] \/ is_potential_marker (buffer s) = true) ->
  in_action_phase (on_event time_time elapsed s e) = false ->
  buffer (on_event time_time elapsed s e) = []
  \/ is_potential_marker (buffer (on_event time_time elapsed s e)) = true.
Proof.
  intros H. rewrite (on_event_content _ time_time elapsed).
  destruct (event_content e) as [|c content].
  { intros A. auto. }
  destruct (in_action_phase s) eqn:A.
  { rewrite (on_content_action _ time_time elapsed s (c :: content) A).
    destruct (receive_fields _ time_time elapsed s (c :: content))
      as [_ [_ [-> _]]]. congruence. }
  rewrite (on_content_thinking _ time_time elapsed s _ A).
  destruct (first_marker action_markers
              (buffer (receive time_time elapsed s (c :: content))
               ++ c :: content)) as [m|] eqn:FM.
  { destruct (scan_detect _ time_time elapsed _ _ m FM) as [-> _]. discriminate. }
  destruct (is_potential_marker
              (buffer (receive time_time elapsed s (c :: content))
               ++ c :: content)) eqn:P.
  - destruct (scan_withhold _ time_time elapsed _ _ FM P) as [_ [_ [-> _]]].
    intros _. right. exact P.
  - destruct (scan_flush _ time_time elapsed _ _ FM P) as [_ [_ [-> _]]].
    intros _. left. reflexivity.
Qed.

Lemma pending_events_loop events :
  let s := events_loop time_time elapsed initial events in
  in_action_phase s = false ->
  buffer s = [] \/ is_potential_marker (buffer s) = true.
Proof.
  apply (events_loop_invariant _ time_time elapsed
           (fun s => in_action_phase s = false ->
                     buffer s = [] \/ is_potential_marker (buffer s) = true)).
  - intros s e H. apply pending_on_event, H.
  - intros _. left. reflexivity.
Qed.

Lemma request_output events :
  let s := events_loop time_time elapsed initial events in
  snd (request time_time elapsed metrics_report events)
  = stdout s
    ++ metrics_report (time_to_first_token s) (time_to_thinking_end s)
         (elapsed (time_time (clock s)) (time_time 0))
  /\ total_time (fst (request time_time elapsed metrics_report events))
     = elapsed (time_time (clock s)) (time_time 0).
Proof.
  unfold request. destruct (_parse_response _). split; reflexivity.
Qed.

(** X7. Thinking text is held back only while it may end inside a
    marker, and what is held back when the stream ends is never printed.
    If the action phase has not begun when the stream ends, the buffer
    is empty or ends with a non-empty proper prefix of a marker, and
    holds no marker; the raw content is the printed text followed by the
    buffer; and all that [request] prints is that printed text followed
    by the report, which shows no thinking-end time. *)
Theorem X7_withheld_text events :
  let s := events_loop time_time elapsed initial events in
  let r := fst (request time_time elapsed metrics_report events) in
  in_action_phase s = false ->
  (buffer s = [] \/ exists p, marker_prefix p /\ suffix p (buffer s))
  /\ (forall marker, In marker action_markers ->
                     ~ occurs marker (buffer s))
  /\ response_raw_content r = stdout s ++ buffer s
  /\ snd (request time_time elapsed metrics_report events)
     = stdout s ++ metrics_report (response_time_to_first_token r) None
                     (total_time r).
Proof.
  cbv zeta. intros A.
  pose proof (stream_inv_events_loop _ time_time elapsed events) as I.
  pose proof (timing_inv_events_loop _ time_time elapsed events) as [_ T].
  unfold stream_inv in I. rewrite A in I, T.
  destruct I as [Hraw [Hno _]]. destruct T as [Tte _].
  destruct (request_fields _ time_time elapsed metrics_report events)
    as [R [F _]].
  destruct (request_output events) as [O Tot].
  cbv zeta in *. split; [|split; [|split]].
  - destruct (pending_events_loop events A) as [B | B]; [left; exact B|].
    right. apply is_potential_marker_iff, B.
  - intros m Hm O'. apply (Hno m Hm). rewrite Hraw. apply occurs_suffix, O'.
  - rewrite R. exact Hraw.
  - rewrite O, F, Tot, Tte. reflexivity.
Qed.

Lemma frozen_on_event s0 s e :
  (in_action_phase s = true /\ first_token_received s = true
   /\ stdout s = stdout s0 /\ buffer s = buffer s0
   /\ time_to_first_token s = time_to_first_token s0
   /\ time_to_thinking_end s = time_to_thinking_end s0
   /\ clock s = clock s0) ->
  let s' := on_event time_time elapsed s e in
  in_action_phase s' = true /\ first_token_received s' = true
  /\ stdout s' = stdout s0 /\ buffer s' = buffer s0
  /\ time_to_first_token s' = time_to_first_token s0
  /\ time_to_thinking_end s' = time_to_thinking_end s0
  /\ clock s' = clock s0.
Proof.
  intros [A [F H]]. cbv zeta. rewrite (on_event_content _ time_time elapsed).
  destruct (event_content e) as [|c content]; [auto|].
  rewrite (on_content_action _ time_time elapsed s _ A).
  unfold receive. rewrite F. cbn. auto.
Qed.

Lemma frozen_events_loop more s :
  in_action_phase s = true -> first_token_received s = true ->
  let s' := events_loop time_time elapsed s more in
  stdout s' = stdout s /\ buffer s' = buffer s
  /\ time_to_first_token s' = time_to_first_token s
  /\ time_to_thinking_end s' = time_to_thinking_end s
  /\ clock s' = clock s.
Proof.
  intros A F. cbv zeta.
  apply (events_loop_invariant _ time_time elapsed
           (fun s' =>
              in_action_phase s' = true /\ first_token_received s' = true
              /\ stdout s' = stdout s /\ buffer s' = buffer s
              /\ time_to_first_token s' = time_to_first_token s
              /\ time_to_thinking_end s' = time_to_thinking_end s
              /\ clock s' = clock s)) with (es := more) (s := s).
  - intros s1 e H. apply (frozen_on_event s s1 e H).
  - auto 10.
Qed.

Lemma frozen_events_loop_app es more s :
  in_action_phase (events_loop time_time elapsed s es) = true ->
  first_token_received (events_loop time_time elapsed s es) = true ->
  let s1 := events_loop time_time elapsed s es in
  let s2 := events_loop time_time elapsed s (es ++ more) in
  stdout s2 = stdout s1 /\ buffer s2 = buffer s1
  /\ time_to_first_token s2 = time_to_first_token s1
  /\ time_to_thinking_end s2 = time_to_thinking_end s1
  /\ clock s2 = clock s1.
Proof.
  revert s; induction es as [|e es IH]; intros s A F.
  - apply frozen_events_loop; assumption.
  - destruct e; cbn [events_loop app] in *; auto 10.
Qed.

(** X8. Nothing is printed in the action phase: once a marker has been
    detected, further events, whatever they carry, leave the printed
    text, the buffer, both recorded times and the number of clock reads
    as they were; only the raw content grows. *)
Theorem X8_action_phase_is_silent events more :
  let s := events_loop time_time elapsed initial events in
  let s' := events_loop time_time elapsed initial (events ++ more) in
  in_action_phase s = true ->
  stdout s' = stdout s /\ buffer s' = buffer s
  /\ time_to_first_token s' = time_to_first_token s
  /\ time_to_thinking_end s' = time_to_thinking_end s
  /\ clock s' = clock s.
Proof.
  cbv zeta. intros A.
  apply frozen_events_loop_app; [exact A|].
  pose proof (timing_inv_events_loop _ time_time elapsed events) as [T _].
  destruct (first_token_received _); [reflexivity|].
  destruct T as [_ [_ T]]. congruence.
Qed.

(** X9. What was echoed is the thinking text that is returned, unless
    both markers are in the text.  If a marker was detected and the raw
    content does not hold both ["finish(message="] and ["do(action="],
    the printed text is some [pre] and a newline, and the thinking text
    of the response is [pre] trimmed. *)
Theorem X9_echo_agrees_with_thinking events :
  let s := events_loop time_time elapsed initial events in
  let r := fst (request time_time elapsed metrics_report events) in
  in_action_phase s = true ->
  ~ (occurs FINISH (response_raw_content r)
     /\ occurs DO (response_raw_content r)) ->
  exists pre, stdout s = pre ++ newline /\ thinking r = strip pre.
Proof.
  cbv zeta. intros A H.
  pose proof (stream_inv_events_loop _ time_time elapsed events) as I.
  unfold stream_inv in I. rewrite A in I.
  destruct I as [m [pre [post [Hm [F O]]]]].
  destruct (request_fields _ time_time elapsed metrics_report events)
    as [R [_ [_ P]]].
  cbv zeta in *. rewrite R in H. exists pre. split; [exact O|].
  apply (f_equal fst) in P. cbn [fst] in P. rewrite P.
  destruct Hm as [<- | [<- | []]].
  - rewrite (parse_finish_at _ _ _ F). reflexivity.
  - assert (NF : ~ occurs FINISH
                     (raw_content
                        (events_loop time_time elapsed initial events))).
    { intros OF. apply H. split; [exact OF|]. exists pre, post. apply F. }
    rewrite (parse_do_at _ _ _ NF F). reflexivity.
Qed.

(** X11. A stream without content: when every event before the sentinel
    is skipped, the response has empty thinking text, action and raw
    content and neither optional time, the total time is the second clock
    reading less the first, and only the report is printed. *)
Theorem X11_stream_without_content events :
  (forall e, In e (consumed events) -> event_content e = []) ->
  request time_time elapsed metrics_report events
  = ({| thinking := []; action := []; response_raw_content := [];
        response_time_to_first_token := None;
        response_time_to_thinking_end := None;
        total_time := elapsed (time_time 1) (time_time 0) |},
     metrics_report None None (elapsed (time_time 1) (time_time 0))).
Proof.
  intros H. unfold request. rewrite (events_loop_contents events initial).
  assert (E : contents events = []).
  { unfold contents. induction (consumed events) as [|e es IH]; [reflexivity|].
    simpl. rewrite (H e) by (left; reflexivity). simpl.
    apply IH. intros x Hx. apply H. right. exact Hx. }
  rewrite E. reflexivity.
Qed.

Section Order.

(** An order on clock readings and on the differences the client takes. *)
Variable le : Time -> Time -> Prop.
Hypothesis clock_monotone :
  forall n m, n <= m -> le (time_time n) (time_time m).
Hypothesis elapsed_monotone :
  forall a b c, le a b -> le (elapsed a c) (elapsed b c).

(** X10. With a clock that does not go back, the times of the response
    are in order: the first-token time is at most the thinking-end time,
    and both are at most the total time; and there is no thinking-end
    time without a first-token time. *)
Theorem X10_times_in_order events :
  let r := fst (request time_time elapsed metrics_report events) in
  (forall a b,
      response_time_to_first_token r = Some a ->
      response_time_to_thinking_end r = Some b -> le a b)
  /\ (forall a, response_time_to_first_token r = Some a ->
                le a (total_time r))
  /\ (forall b, response_time_to_thinking_end r = Some b ->
                le b (total_time r))
  /\ (response_time_to_first_token r = None ->
      response_time_to_thinking_end r = None).
Proof.
  cbv zeta.
  destruct (request_fields _ time_time elapsed metrics_report events)
    as [_ [F [E _]]].
  destruct (request_output events) as [_ Tot].
  cbv zeta in *. rewrite F, E, Tot.
  pose proof (timing_inv_events_loop _ time_time elapsed events) as [T1 T2].
  destruct (first_token_received _), (in_action_phase _);
    destruct T1 as [-> T1]; destruct T2 as [-> ->];
    repeat split; intros; try discriminate;
    repeat match goal with
           | H : Some _ = Some _ |- _ => injection H as <-
           end;
    try (apply elapsed_monotone, clock_monotone; lia).
  destruct T1; discriminate.
Qed.

End Order.

End Stream.

(* ===================================================================== *)
(** ** The further statements on concrete streams *)
(* ===================================================================== *)

Lemma X6_response_independent_of_chunking_witness :
  let r := fst (request tick Nat.sub (fun _ _ _ => [])
                  [chunk (lit "hello do(acti"); chunk (lit "on=run)")]) in
  let r' := fst (request tick Nat.sub (fun _ _ _ => [])
                   [chunk (lit "hello do(action=run)")]) in
  thinking r = thinking r' /\ action r = action r'
  /\ response_raw_content r = response_raw_content r'.
Proof.
  apply (X6_response_independent_of_chunking nat tick Nat.sub (fun _ _ _ => [])
           [chunk (lit "hello do(acti"); chunk (lit "on=run)")]
           [chunk (lit "hello do(action=run)")]).
  reflexivity.
Defined.

Lemma X7_withheld_text_witness :
  let events := [chunk (lit "so I will "); chunk (lit "do(")] in
  stdout (run events) = lit "so I will "
  /\ buffer (run events) = lit "do("
  /\ snd (request tick Nat.sub (fun _ _ _ => lit "report") events)
     = lit "so I will report".
Proof.
  cbv zeta.
  pose proof (X7_withheld_text nat tick Nat.sub (fun _ _ _ => lit "report")
                [chunk (lit "so I will "); chunk (lit "do(")] eq_refl)
    as [_ [_ [_ H]]].
  split; [reflexivity | split; [reflexivity | exact H]].
Defined.

Lemma X8_action_phase_is_silent_witness :
  stdout (run [chunk (lit "ok do(action="); chunk (lit "Tap)"); Malformed])
  = stdout (run [chunk (lit "ok do(action=")]).
Proof.
  apply (X8_action_phase_is_silent nat tick Nat.sub
           [chunk (lit "ok do(action=")] [chunk (lit "Tap)"); Malformed]).
  reflexivity.
Defined.

Lemma X9_echo_agrees_with_thinking_witness :
  exists pre,
    stdout (run [chunk (lit "ok "); chunk (lit "do(action=Tap)")])
    = pre ++ newline
    /\ thinking (fst (request tick Nat.sub (fun _ _ _ => [])
                        [chunk (lit "ok "); chunk (lit "do(action=Tap)")]))
       = strip pre.
Proof.
  apply (X9_echo_agrees_with_thinking nat tick Nat.sub (fun _ _ _ => [])
           [chunk (lit "ok "); chunk (lit "do(action=Tap)")]).
  - reflexivity.
  - intros [OF _]. apply contains_iff in OF. discriminate.
Defined.

(** With both markers in the text and in different chunks, the echo and
    the returned thinking text differ. *)
Example echo_differs_with_both_markers :
  let events := [chunk (lit "do(action=a) "); chunk (lit "finish(message=b)")] in
  stdout (run events) = newline
  /\ thinking (fst (request tick Nat.sub (fun _ _ _ => []) events))
     = lit "do(action=a)".
Proof. split; reflexivity. Qed.

Lemma X10_times_in_order_witness :
  let r := fst (request tick Nat.sub (fun _ _ _ => [])
                  [chunk (lit "ok "); chunk (lit "do(action=Tap)")]) in
  response_time_to_first_token r = Some 1
  /\ response_time_to_thinking_end r = Some 2
  /\ 1 <= 2 /\ 2 <= total_time r.
Proof.
  cbv zeta.
  destruct (X10_times_in_order nat tick Nat.sub (fun _ _ _ => []) Nat.le
              ltac:(unfold tick; intros; lia) ltac:(intros; lia)
              [chunk (lit "ok "); chunk (lit "do(action=Tap)")])
    as [H1 [_ [H3 _]]].
  repeat split.
  - apply (H1 1 2); reflexivity.
  - apply (H3 2). reflexivity.
Defined.

Lemma X11_stream_without_content_witness :
  request tick Nat.sub (fun _ _ _ => lit "report")
    [Malformed; Data []; Done; chunk (lit "late")]
  = ({| thinking := []; action := []; response_raw_content := [];
        response_time_to_first_token := None;
        response_time_to_thinking_end := None;
        total_time := 1 |},
     lit "report").
Proof.
  apply (X11_stream_without_content nat tick Nat.sub (fun _ _ _ => lit "report")
           [Malformed; Data []; Done; chunk (lit "late")]).
  intros e [<- | [<- | []]]; reflexivity.
Defined.
